(** * The bouncing layer animation

    A shallow embedding of the animation script of the repository
    (the script that declares [dx], [dy], [animationId], [goingDown] and the
    functions [startAnimation] and [moveLayer]) together with the properties
    its design document states about it.

    Modelling conventions.
    - Pixel coordinates, the horizontal speed and the window dimensions are
      integers ([Z]): the script only ever adds the integer [dx], the results
      of [parseInt] and the integer window dimensions to the integer start
      position (0, 150).
    - The layer is absolutely positioned: [getBoundingClientRect] reports the
      [left], [top], [width] and [height] last written to [layer.style].
    - The width and the height of a box are never negative ([N]); an
      assignment of a negative length to [style.width] or [style.height] is
      an invalid declaration and leaves the property as it was.
    - The page is driven by three kinds of events: a click on the start
      button, an animation frame, and a resize of the window. *)

From Stdlib Require Import ZArith List Bool String Ascii Lia.
From Stdlib Require Import Sorted Permutation DecimalString DecimalPos DecimalN.
Import ListNotations.
Open Scope Z_scope.

(** ** Numbers read from the form *)

(** A JavaScript number as [parseFloat] produces it from a decimal literal:
    [Dec m e] stands for the double nearest to [m * 10^e]. *)
Inductive JSNum : Type :=
| NaN : JSNum
| Infinity (negative : bool) : JSNum
| Dec (m : Z) (e : Z) : JSNum.

(** ** The page *)

Record Layer : Type := mkLayer {
  style_backgroundColor : string;
  style_width : N;
  style_height : N;
  style_opacity : JSNum;
  textContent : string;
  style_left : Z;
  style_top : Z
}.

Record DOMRect : Type := mkRect {
  rect_left : Z;
  rect_top : Z;
  rect_width : Z;
  rect_height : Z
}.

Definition getBoundingClientRect (l : Layer) : DOMRect :=
  {| rect_left := style_left l;
     rect_top := style_top l;
     rect_width := Z.of_N (style_width l);
     rect_height := Z.of_N (style_height l) |}.

(** [window.innerWidth] and [window.innerHeight], read afresh by every call
    of [moveLayer]. *)
Record Window : Type := mkWindow {
  innerWidth : Z;
  innerHeight : Z
}.

(** The list of animation frame callbacks of the document.  Every callback
    the script registers is [moveLayer], so a pending callback is
    represented by its handle alone. *)
Record FrameQueue : Type := mkQueue {
  pending : list positive;
  nextHandle : positive
}.

Definition requestAnimationFrame (q : FrameQueue) : positive * FrameQueue :=
  (nextHandle q,
   {| pending := pending q ++ [nextHandle q];
      nextHandle := Pos.succ (nextHandle q) |}).

(** [cancelAnimationFrame(undefined)] and the cancellation of a handle that
    is no longer pending do nothing. *)
Definition cancelAnimationFrame (id : option positive) (q : FrameQueue) : FrameQueue :=
  match id with
  | None => q
  | Some h =>
      {| pending := filter (fun k => negb (Pos.eqb k h)) (pending q);
         nextHandle := nextHandle q |}
  end.

(** The global variables of the script and the page they act on. *)
Record World : Type := mkWorld {
  dx : Z;
  dy : Z;
  animationId : option positive;
  goingDown : bool;
  layer : Layer;
  frames : FrameQueue
}.

Definition set_left (x : Z) (l : Layer) : Layer :=
  {| style_backgroundColor := style_backgroundColor l;
     style_width := style_width l;
     style_height := style_height l;
     style_opacity := style_opacity l;
     textContent := textContent l;
     style_left := x;
     style_top := style_top l |}.

Definition set_top (y : Z) (l : Layer) : Layer :=
  {| style_backgroundColor := style_backgroundColor l;
     style_width := style_width l;
     style_height := style_height l;
     style_opacity := style_opacity l;
     textContent := textContent l;
     style_left := style_left l;
     style_top := y |}.

(** ** [moveLayer] *)

(** The horizontal wall test of [moveLayer]:
    [if (dx > 0 && x + w >= winW) {...} else if (dx < 0 && x <= 0) {...}].
    [x] and [y] are the values after [x += dx; y += dy]; the result is the
    new [dx] and the new [y]. *)
Definition bounceX (dx x y w h winW : Z) (goingDown : bool) : Z * Z :=
  if (dx >? 0) && (x + w >=? winW) then
    (- dx, y + (if goingDown then h else - h))
  else if (dx <? 0) && (x <=? 0) then
    (- dx, y + (if goingDown then h else - h))
  else (dx, y).

(** The vertical test of [moveLayer]:
    [if (goingDown && y + h >= winH) {...} else if (!goingDown && y <= 0) {...}].
    The result is the new [goingDown] and the new [y]. *)
Definition sweepY (goingDown : bool) (y h winH : Z) : bool * Z :=
  if goingDown && (y + h >=? winH) then (false, winH - h)
  else if negb goingDown && (y <=? 0) then (true, 0)
  else (goingDown, y).

Definition moveLayer (win : Window) (s : World) : World :=
  let rect := getBoundingClientRect (layer s) in
  let x := rect_left rect in
  let y := rect_top rect in
  let w := rect_width rect in
  let h := rect_height rect in
  let winW := innerWidth win in
  let winH := innerHeight win in
  let x := x + dx s in
  let y := y + dy s in
  let '(dx', y) := bounceX (dx s) x y w h winW (goingDown s) in
  let '(goingDown', y) := sweepY (goingDown s) y h winH in
  let layer' := set_top y (set_left x (layer s)) in
  let '(id, q) := requestAnimationFrame (frames s) in
  {| dx := dx';
     dy := dy s;
     animationId := Some id;
     goingDown := goingDown';
     layer := layer';
     frames := q |}.

(** ** The motion state of the design *)

Inductive VerticalPhase : Type := DESCENDING | ASCENDING.

Record MotionState : Type := mkMotion {
  position_x : Z;
  position_y : Z;
  size_width : Z;
  size_height : Z;
  velocityX : Z;
  verticalPhase : VerticalPhase
}.

Record ViewportBounds : Type := mkBounds {
  bounds_width : Z;
  bounds_height : Z
}.

Definition phaseOf (down : bool) : VerticalPhase :=
  if down then DESCENDING else ASCENDING.

Definition motionOf (s : World) : MotionState :=
  {| position_x := style_left (layer s);
     position_y := style_top (layer s);
     size_width := Z.of_N (style_width (layer s));
     size_height := Z.of_N (style_height (layer s));
     velocityX := dx s;
     verticalPhase := phaseOf (goingDown s) |}.

Definition boundsOf (win : Window) : ViewportBounds :=
  {| bounds_width := innerWidth win; bounds_height := innerHeight win |}.

(** The vertical part of the update step in the words of the design
    document: a horizontal reflection event is "moving right and
    [x' + width >= bounds.width], or moving left and [x' <= 0]" for the
    tentative [x' = position.x + velocityX]; on such an event [y] is shifted
    by [+height] when descending and by [-height] when ascending; the phase
    test is then made on the shifted [y], whether or not a reflection
    occurred. *)
Definition spec_reflects (m : MotionState) (b : ViewportBounds) : bool :=
  let x' := position_x m + velocityX m in
  ((0 <? velocityX m) && (bounds_width b <=? x' + size_width m))
  || ((velocityX m <? 0) && (x' <=? 0)).

Definition spec_shift (m : MotionState) (b : ViewportBounds) : Z :=
  if spec_reflects m b then
    match verticalPhase m with
    | DESCENDING => position_y m + size_height m
    | ASCENDING => position_y m - size_height m
    end
  else position_y m.

Definition spec_phase_test (phase : VerticalPhase) (y h : Z) (b : ViewportBounds)
  : Z * VerticalPhase :=
  match phase with
  | DESCENDING =>
      if bounds_height b <=? y + h then (bounds_height b - h, ASCENDING)
      else (y, DESCENDING)
  | ASCENDING =>
      if y <=? 0 then (0, DESCENDING) else (y, ASCENDING)
  end.

Definition spec_vertical (m : MotionState) (b : ViewportBounds) : Z * VerticalPhase :=
  spec_phase_test (verticalPhase m) (spec_shift m b) (size_height m) b.

(** ** Reading the form: [parseInt], [parseFloat] and [||] *)

Definition isWhiteSpace (c : ascii) : bool :=
  let n := nat_of_ascii c in
  (((9 <=? n) && (n <=? 13)) || (n =? 32))%nat.

Fixpoint trimStart (s : string) : string :=
  match s with
  | String c s' => if isWhiteSpace c then trimStart s' else s
  | EmptyString => EmptyString
  end.

(** The value of a character as a digit: 0-9, then a-z and A-Z for 10-35. *)
Definition digitValue (c : ascii) : option Z :=
  let n := Z.of_nat (nat_of_ascii c) in
  if (48 <=? n) && (n <=? 57) then Some (n - 48)
  else if (97 <=? n) && (n <=? 122) then Some (n - 87)
  else if (65 <=? n) && (n <=? 90) then Some (n - 55)
  else None.

(** The value of the longest prefix of [s] made of digits of the radix;
    [acc] is [None] as long as no digit has been read. *)
Fixpoint digitsPrefix (radix : Z) (s : string) (acc : option Z) : option Z :=
  match s with
  | String c s' =>
      match digitValue c with
      | Some d =>
          if d <? radix then
            digitsPrefix radix s'
              (Some (radix * match acc with Some a => a | None => 0 end + d))
          else acc
      | None => acc
      end
  | EmptyString => acc
  end.

Definition splitSign (s : string) : bool * string :=
  match s with
  | String "-" s' => (true, s')
  | String "+" s' => (false, s')
  | _ => (false, s)
  end.

(** [parseInt(s)] without a radix argument; [None] is [NaN].  The result is
    exact (the rounding of integers beyond 2^53 is not modelled). *)
Definition parseInt (input : string) : option Z :=
  let '(neg, s) := splitSign (trimStart input) in
  let '(radix, s) :=
    match s with
    | String "0" (String "x" s') => (16, s')
    | String "0" (String "X" s') => (16, s')
    | _ => (10, s)
    end in
  match digitsPrefix radix s None with
  | Some v => Some (if neg then - v else v)
  | None => None
  end.

(** [n || d] for the result of [parseInt]: [NaN] and zero are falsy. *)
Definition intOr (v : option Z) (d : Z) : Z :=
  match v with
  | Some n => if n =? 0 then d else n
  | None => d
  end.

(** Decimal digits at the head of [s]: their value on top of [acc], their
    number on top of [n], and the rest of the string. *)
Fixpoint decimalDigits (s : string) (acc n : Z) : Z * Z * string :=
  match s with
  | String c s' =>
      match digitValue c with
      | Some d =>
          if d <? 10 then decimalDigits s' (10 * acc + d) (n + 1)
          else (acc, n, s)
      | None => (acc, n, s)
      end
  | EmptyString => (acc, n, s)
  end.

(** The exponent part of a decimal literal, if there is one with at least
    one digit. *)
Definition exponentPart (s : string) : Z :=
  match s with
  | String c s' =>
      if (Ascii.eqb c "e" || Ascii.eqb c "E")%bool then
        let '(neg, s'') := splitSign s' in
        let '(v, n, _) := decimalDigits s'' 0 0 in
        if n =? 0 then 0 else if neg then - v else v
      else 0
  | EmptyString => 0
  end.

(** [parseFloat(s)]: the longest prefix of the trimmed string that is a
    decimal literal. *)
Definition parseFloat (input : string) : JSNum :=
  let '(neg, s) := splitSign (trimStart input) in
  if String.prefix "Infinity" s then Infinity neg
  else
    let '(i, ni, s1) := decimalDigits s 0 0 in
    let '(m, nf, s2) :=
      match s1 with
      | String "." s' => decimalDigits s' i 0
      | _ => (i, 0, s1)
      end in
    if (ni =? 0) && (nf =? 0) then NaN
    else Dec (if neg then - m else m) (exponentPart s2 - nf).

(** The double nearest to [m * 10^e] is a zero exactly when [m] is zero or
    the magnitude is at most 2^-1075, half of the least positive double. *)
Definition roundsToZero (m e : Z) : bool :=
  (m =? 0) || ((e <? 0) && (Z.abs m * 2 ^ 1075 <=? 10 ^ (- e))).

Definition truthy (v : JSNum) : bool :=
  match v with
  | NaN => false
  | Infinity _ => true
  | Dec m e => negb (roundsToZero m e)
  end.

Definition numOr (v d : JSNum) : JSNum := if truthy v then v else d.

Definition strOr (v d : string) : string :=
  match v with
  | EmptyString => d
  | _ => v
  end.

(** ** [startAnimation] *)

(** The [value] of the five inputs of the form; an input left empty has the
    empty string as its value. *)
Record Inputs : Type := mkInputs {
  colorInput : string;
  widthInput : string;
  heightInput : string;
  textInput : string;
  opacityInput : string
}.

(** What [startAnimation] computes from the form (its five [const]s). *)
Definition configWidth (inp : Inputs) : Z := intOr (parseInt (widthInput inp)) 150.
Definition configHeight (inp : Inputs) : Z := intOr (parseInt (heightInput inp)) 100.
Definition configText (inp : Inputs) : string := strOr (textInput inp) "Calque".
Definition configOpacity (inp : Inputs) : JSNum :=
  numOr (parseFloat (opacityInput inp)) (Dec 1 0).

(** A negative length is not a valid [width] or [height]: the assignment is
    dropped and the box keeps its size. *)
Definition lengthOr (v : Z) (old : N) : N :=
  if v <? 0 then old else Z.to_N v.

(** The assignments to [layer.style] and [layer.textContent] of
    [startAnimation], the position (0, 150) included. *)
Definition styleLayer (inp : Inputs) (l : Layer) : Layer :=
  {| style_backgroundColor := colorInput inp;
     style_width := lengthOr (configWidth inp) (style_width l);
     style_height := lengthOr (configHeight inp) (style_height l);
     style_opacity := configOpacity inp;
     textContent := configText inp;
     style_left := 0;
     style_top := 150 |}.

(** [startAnimation] up to and including [cancelAnimationFrame(animationId)]:
    the state in which it calls [moveLayer]. *)
Definition resetWorld (inp : Inputs) (s : World) : World :=
  {| dx := Z.abs (dx s);
     dy := 0;
     animationId := animationId s;
     goingDown := true;
     layer := styleLayer inp (layer s);
     frames := cancelAnimationFrame (animationId s) (frames s) |}.

Definition startAnimation (inp : Inputs) (win : Window) (s : World) : World :=
  moveLayer win (resetWorld inp s).

(** ** The event handlers and the reachable states *)

(** The [resize] listener. *)
Definition onResize (win : Window) (s : World) : World :=
  match animationId s with
  | Some _ =>
      moveLayer win
        {| dx := dx s;
           dy := dy s;
           animationId := animationId s;
           goingDown := goingDown s;
           layer := layer s;
           frames := cancelAnimationFrame (animationId s) (frames s) |}
  | None => s
  end.

(** One callback of an animation frame: if its handle is still pending it is
    removed from the list and [moveLayer] runs. *)
Definition runCallback (win : Window) (s : World) (h : positive) : World :=
  if existsb (Pos.eqb h) (pending (frames s)) then
    moveLayer win
      {| dx := dx s;
         dy := dy s;
         animationId := animationId s;
         goingDown := goingDown s;
         layer := layer s;
         frames := cancelAnimationFrame (Some h) (frames s) |}
  else s.

(** An animation frame runs the callbacks that were pending when it began. *)
Definition onFrame (win : Window) (s : World) : World :=
  fold_left (runCallback win) (pending (frames s)) s.

Inductive Event : Type :=
| Click (inp : Inputs) (win : Window)
| AnimationFrame (win : Window)
| Resize (win : Window).

Definition dispatch (s : World) (e : Event) : World :=
  match e with
  | Click inp win => startAnimation inp win s
  | AnimationFrame win => onFrame win s
  | Resize win => onResize win s
  end.

(** The state of the script once it is loaded, around the layer [l0] of the
    page: [let dx = 3; let dy = 0; let animationId; let goingDown = true]. *)
Definition initWorld (l0 : Layer) : World :=
  {| dx := 3;
     dy := 0;
     animationId := None;
     goingDown := true;
     layer := l0;
     frames := {| pending := []; nextHandle := 1%positive |} |}.

Inductive Reachable (l0 : Layer) : World -> Prop :=
| Reachable_init : Reachable l0 (initWorld l0)
| Reachable_event s e : Reachable l0 s -> Reachable l0 (dispatch s e).

(** [n] update steps in a window that does not change. *)
Definition run (win : Window) (n : nat) (s : World) : World :=
  Nat.iter n (moveLayer win) s.

(** A step met the right or the left wall: the condition of one of the two
    branches of the horizontal test holds for the moved [x]. *)
Definition hitsRight (win : Window) (s : World) : bool :=
  (dx s >? 0)
  && (style_left (layer s) + dx s + Z.of_N (style_width (layer s)) >=? innerWidth win).

Definition hitsLeft (win : Window) (s : World) : bool :=
  (dx s <? 0) && (style_left (layer s) + dx s <=? 0).

Definition hitsWall (win : Window) (s : World) : bool :=
  hitsRight win s || hitsLeft win s.

(** The conditions of the two branches of the vertical test, for the [y]
    that reaches them. *)
Definition hitsBottom (win : Window) (s : World) (y : Z) : bool :=
  goingDown s && (y + Z.of_N (style_height (layer s)) >=? innerHeight win).

Definition hitsTop (s : World) (y : Z) : bool :=
  negb (goingDown s) && (y <=? 0).

(** The [y] of a step between its two tests, after the shift of the
    horizontal test and before the vertical test. *)
Definition shiftedY (win : Window) (s : World) : Z :=
  let rect := getBoundingClientRect (layer s) in
  snd (bounceX (dx s) (rect_left rect + dx s) (rect_top rect + dy s)
         (rect_width rect) (rect_height rect) (innerWidth win) (goingDown s)).

(** The number of steps, among the first [n] of a run, in which
    [goingDown] changed. *)
Fixpoint toggles (win : Window) (n : nat) (s : World) : nat :=
  match n with
  | O => O
  | S k =>
      let s' := moveLayer win s in
      ((if Bool.eqb (goingDown s') (goingDown s) then 0 else 1)
       + toggles win k s')%nat
  end.

(** ** The scenarios of the design document *)

Definition plainLayer (w h : N) : Layer :=
  {| style_backgroundColor := EmptyString;
     style_width := w;
     style_height := h;
     style_opacity := Dec 1 0;
     textContent := EmptyString;
     style_left := 0;
     style_top := 0 |}.

Definition sizeInputs (w h : string) : Inputs :=
  {| colorInput := "red";
     widthInput := w;
     heightInput := h;
     textInput := EmptyString;
     opacityInput := EmptyString |}.

(** Corner contact: a layer of 150 by 100 started in a window of 800 by 600. *)
Definition cornerWindow : Window := {| innerWidth := 800; innerHeight := 600 |}.
Definition cornerStart : World :=
  resetWorld (sizeInputs "150" "100") (initWorld (plainLayer 0 0)).

(** Degenerate bounds: a layer of 150 by 150 started in a window of 100 by 100. *)
Definition smallWindow : Window := {| innerWidth := 100; innerHeight := 100 |}.
Definition oversizedStart : World :=
  resetWorld (sizeInputs "150" "150") (initWorld (plainLayer 0 0)).

(** The update steps of a run whose window may change from step to step. *)
Definition steps (wins : list Window) (s : World) : World :=
  fold_left (fun st win => moveLayer win st) wins s.

(** The form with "0" typed as the opacity. *)
Definition zeroOpacityInputs : Inputs :=
  {| colorInput := "red";
     widthInput := "150";
     heightInput := "100";
     textInput := "Calque";
     opacityInput := "0" |}.

(** The two motion states between which the oversized layer alternates. *)
Definition oversizedBelow : MotionState :=
  {| position_x := 3; position_y := -50;
     size_width := 150; size_height := 150;
     velocityX := -3; verticalPhase := ASCENDING |}.

Definition oversizedAtOrigin : MotionState :=
  {| position_x := 0; position_y := 0;
     size_width := 150; size_height := 150;
     velocityX := 3; verticalPhase := DESCENDING |}.

(** ** Invariants of a run *)

(** [x] is a non-negative multiple of the speed [v], and while the layer
    moves left it is to the right of the left wall. *)
Definition onGrid (v : Z) (s : World) : Prop :=
  exists k, 0 <= k
    /\ style_left (layer s) = k * v
    /\ (dx s = v \/ (dx s = - v /\ 0 < style_left (layer s))).



(** ** Events other than a click, and numerals *)

Definition isClick (e : Event) : bool :=
  match e with
  | Click _ _ => true
  | _ => false
  end.

(** The decimal numeral of a natural number, as the conversion of a number
    to a string writes it and as a user types it. *)
Definition numeral (n : N) : string :=
  NilEmpty.string_of_uint (N.to_uint n).

(** The form with the numerals of [w] and [h] as width and height. *)
Definition sizedInputs (w h : N) : Inputs := sizeInputs (numeral w) (numeral h).

(** What [startAnimation] gives the layer and [moveLayer] never writes. *)
Definition appearance (l : Layer) : string * N * N * JSNum * string :=
  (style_backgroundColor l, style_width l, style_height l, style_opacity l,
   textContent l).

(** * The registration form: [validerFormulaire] *)

(** A [Date] through its getters in local time, the month counted from 0.
    An invalid date, as [new Date] makes from an empty or malformed field,
    is [None]: each of its getters returns [NaN]. *)
Record DateFields : Type := mkDate {
  getFullYear : Z;
  getMonth : Z;
  getDate : Z
}.

Record Formulaire : Type := mkFormulaire {
  dateNaissance : option DateFields;
  motDePasse : string;
  confirmationMotDePasse : string
}.

Inductive Display : Type := display_none | display_block.

(** What a call leaves on the page: the [display] of the two error
    messages, and whether the success alert was shown. *)
Record FormOutcome : Type := mkOutcome {
  ageError : Display;
  passwordError : Display;
  alerted : bool
}.

(** Numbers that may be [NaN] ([None]): subtraction, [<] and [===]. *)
Definition numSub (a b : option Z) : option Z :=
  match a, b with
  | Some x, Some y => Some (x - y)
  | _, _ => None
  end.

Definition numLt (a b : option Z) : bool :=
  match a, b with
  | Some x, Some y => x <? y
  | _, _ => false
  end.

Definition numEq (a b : option Z) : bool :=
  match a, b with
  | Some x, Some y => x =? y
  | _, _ => false
  end.

(** The age test of [validerFormulaire]. *)
Definition tooYoung (today : DateFields) (birth : option DateFields) : bool :=
  let age := numSub (Some (getFullYear today)) (option_map getFullYear birth) in
  let monthDiff := numSub (Some (getMonth today)) (option_map getMonth birth) in
  numLt age (Some 14)
  || (numEq age (Some 14) && numLt monthDiff (Some 0))
  || (numEq age (Some 14) && numEq monthDiff (Some 0)
      && numLt (Some (getDate today)) (option_map getDate birth)).

Definition validerFormulaire (today : DateFields) (f : Formulaire) : FormOutcome :=
  let ageErr := display_none in
  let pwErr := display_none in
  let isValid := true in
  let '(ageErr, isValid) :=
    if tooYoung today (dateNaissance f) then (display_block, false)
    else (ageErr, isValid) in
  let '(pwErr, isValid) :=
    if negb (String.eqb (motDePasse f) (confirmationMotDePasse f))
    then (display_block, false)
    else (pwErr, isValid) in
  {| ageError := ageErr; passwordError := pwErr; alerted := isValid |}.

(** The order of calendar dates, and a date [n] years later. *)
Definition dateLt (a b : DateFields) : Prop :=
  getFullYear a < getFullYear b
  \/ (getFullYear a = getFullYear b
      /\ (getMonth a < getMonth b
          \/ (getMonth a = getMonth b /\ getDate a < getDate b))).

Definition addYears (n : Z) (d : DateFields) : DateFields :=
  {| getFullYear := getFullYear d + n;
     getMonth := getMonth d;
     getDate := getDate d |}.

(** * The text boxes: copy, cut and clear *)

(** [s.split(c)] and [s.replaceAll(c, r)] for a separator of one character. *)
Fixpoint split (sep : ascii) (s : string) : list string :=
  match s with
  | EmptyString => [EmptyString]
  | String c s' =>
      if Ascii.eqb c sep then EmptyString :: split sep s'
      else
        match split sep s' with
        | w :: ws => String c w :: ws
        | [] => [String c EmptyString]
        end
  end.

Fixpoint replaceAll (pat : ascii) (r : string) (s : string) : string :=
  match s with
  | EmptyString => EmptyString
  | String c s' =>
      if Ascii.eqb c pat then r ++ replaceAll pat r s'
      else String c (replaceAll pat r s')
  end.

(** The text the copy and cut handlers write:
    [text.replaceAll(' ','') + " Ce texte contient " + count + " mots"]
    with [count = text.split(" ").length]. *)
Definition wordReport (text : string) : string :=
  let count := List.length (split " " text) in
  replaceAll " " EmptyString text
  ++ " Ce texte contient " ++ numeral (N.of_nat count) ++ " mots".

Record TextPage : Type := mkTextPage {
  text_area_value : string;
  b_box_textContent : string;
  b_box_color : string;
  c_box_textContent : string;
  c_box_color : string
}.

(** The [copy] listener of the text area and the [click] listener of the
    copy button. *)
Definition onCopy (p : TextPage) : TextPage :=
  let text := text_area_value p in
  {| text_area_value := text_area_value p;
     b_box_textContent := wordReport text;
     b_box_color := "blue";
     c_box_textContent := c_box_textContent p;
     c_box_color := c_box_color p |}.

(** The [cut] listener of the text area and the [click] listener of the cut
    button. *)
Definition onCut (p : TextPage) : TextPage :=
  let text := text_area_value p in
  {| text_area_value := text_area_value p;
     b_box_textContent := b_box_textContent p;
     b_box_color := b_box_color p;
     c_box_textContent := wordReport text;
     c_box_color := "white" |}.

(** The [click] listener of the clear box; [confirmed] is the answer to
    [confirm('Are you sure?')]. *)
Definition onClear (confirmed : bool) (p : TextPage) : TextPage :=
  if confirmed then
    {| text_area_value := EmptyString;
       b_box_textContent := EmptyString;
       b_box_color := b_box_color p;
       c_box_textContent := EmptyString;
       c_box_color := c_box_color p |}
  else p.

(** The number of occurrences of a character. *)
Fixpoint countChar (c : ascii) (s : string) : nat :=
  match s with
  | EmptyString => O
  | String a s' => ((if Ascii.eqb a c then 1 else 0) + countChar c s')%nat
  end.

Fixpoint occurs (c : ascii) (s : string) : bool :=
  match s with
  | EmptyString => false
  | String a s' => Ascii.eqb a c || occurs c s'
  end.

(** * The city colours *)

(** The values the script reads from the table [cityColors] and assigns to
    [color_box.style.backgroundColor]: a string, [undefined], or a member
    that the table inherits from [Object.prototype]. *)
Inductive JSValue : Type :=
| JUndefined : JSValue
| JString (s : string) : JSValue
| JInherited (name : string) : JSValue.

(** The property names every object inherits from [Object.prototype]. *)
Definition objectPrototypeKeys : list string :=
  ["constructor"; "__defineGetter__"; "__defineSetter__"; "hasOwnProperty";
   "__lookupGetter__"; "__lookupSetter__"; "isPrototypeOf";
   "propertyIsEnumerable"; "toString"; "valueOf"; "__proto__";
   "toLocaleString"]%string.

(** The own properties of the table, all of them strings. *)
Definition Table : Type := list (string * string).

Fixpoint ownProperty (o : Table) (k : string) : option string :=
  match o with
  | [] => None
  | (k', v) :: o' => if String.eqb k' k then Some v else ownProperty o' k
  end.

(** [o[k]]. *)
Definition getProperty (o : Table) (k : string) : JSValue :=
  match ownProperty o k with
  | Some v => JString v
  | None =>
      if existsb (String.eqb k) objectPrototypeKeys then JInherited k
      else JUndefined
  end.

Fixpoint putOwn (o : Table) (k v : string) : Table :=
  match o with
  | [] => [(k, v)]
  | (k', v') :: o' =>
      if String.eqb k' k then (k', v) :: o' else (k', v') :: putOwn o' k v
  end.

(** [o[k] = v] for a string [v]: the inherited setter of [__proto__] takes
    the assignment to that name and ignores a string. *)
Definition setProperty (o : Table) (k v : string) : Table :=
  if String.eqb k "__proto__" then o else putOwn o k v.

Definition cityColors0 : Table :=
  [("Agadir", "orange"); ("Casablanca", "red"); ("Rabat", "blue");
   ("Fes", "green"); ("Marrakech", "purple"); ("default", "transparent")]%string.

(** The page of the city colours: the table, the options of the select
    (their values, in order) and its value, the last value assigned to the
    background of the colour box, the display of the field for a new city,
    the two inputs of that field, and the alerts shown so far. *)
Record CityPage : Type := mkCityPage {
  cityColors : Table;
  select_options : list string;
  select_value : string;
  color_box_backgroundColor : JSValue;
  custom_field_display : string;
  new_city_value : string;
  color_picker_value : string;
  alerts : list string
}.

(** [s.trim()], for the white space of ASCII. *)
Fixpoint trimEnd (s : string) : string :=
  match s with
  | EmptyString => EmptyString
  | String c s' =>
      match trimEnd s' with
      | EmptyString => if isWhiteSpace c then EmptyString else String c EmptyString
      | t => String c t
      end
  end.

Definition trim (s : string) : string := trimEnd (trimStart s).

(** [parent.insertBefore(option, parent.lastElementChild)]: before the last
    child, or at the end when there is no child. *)
Fixpoint insertBeforeLast (x : string) (l : list string) : list string :=
  match l with
  | [] => [x]
  | [y] => [x; y]
  | y :: l' => y :: insertBeforeLast x l'
  end.

(** The [change] listener of the select, after the user chose the option of
    value [v]. *)
Definition onChange (v : string) (p : CityPage) : CityPage :=
  let selected_city := v in
  let '(display, bg) :=
    if String.eqb selected_city "autre" then
      ("block"%string, JString "transparent")
    else if negb (String.eqb selected_city EmptyString) then
      ("block"%string, getProperty (cityColors p) selected_city)
    else ("none"%string, JString "transparent") in
  {| cityColors := cityColors p;
     select_options := select_options p;
     select_value := v;
     color_box_backgroundColor := bg;
     custom_field_display := display;
     new_city_value := new_city_value p;
     color_picker_value := color_picker_value p;
     alerts := alerts p |}.

(** The [click] listener of the button that adds a city. *)
Definition onAddCity (p : CityPage) : CityPage :=
  let city_name := trim (new_city_value p) in
  let city_color := color_picker_value p in
  if negb (String.eqb city_name EmptyString)
     && negb (String.eqb city_color EmptyString) then
    {| cityColors := setProperty (cityColors p) city_name city_color;
       select_options := insertBeforeLast city_name (select_options p);
       select_value := city_name;
       color_box_backgroundColor := JString city_color;
       custom_field_display := "none";
       new_city_value := EmptyString;
       color_picker_value := "#000000";
       alerts := alerts p |}
  else
    {| cityColors := cityColors p;
       select_options := select_options p;
       select_value := select_value p;
       color_box_backgroundColor := color_box_backgroundColor p;
       custom_field_display := custom_field_display p;
       new_city_value := new_city_value p;
       color_picker_value := color_picker_value p;
       alerts := alerts p ++ ["Veuillez saisir une ville et une couleur"]%string |}.

(** A string made of white space only. *)
Fixpoint isBlank (s : string) : bool :=
  match s with
  | EmptyString => true
  | String c s' => isWhiteSpace c && isBlank s'
  end.

(** A page on which " Tanger " and a green have been entered. *)
Definition sampleCityPage : CityPage :=
  {| cityColors := cityColors0;
     select_options := ["Agadir"; "Casablanca"; "autre"]%string;
     select_value := "Agadir";
     color_box_backgroundColor := JString "orange";
     custom_field_display := "block";
     new_city_value := "  Tanger ";
     color_picker_value := "#00ff00";
     alerts := [] |}.

(** * The sorting routines of [Main] *)

(** An [int] is kept as an integer: the routines only compare and move the
    elements.  An array is the list of its elements; an index is a natural
    number (the loops count upwards from 0). *)

Inductive Exception : Type :=
| ArrayIndexOutOfBoundsException
| NegativeArraySizeException.

Inductive Result (A : Type) : Type :=
| Ok (a : A)
| Throw (e : Exception).

Arguments Ok {A} a.
Arguments Throw {A} e.

Definition bind {A B : Type} (r : Result A) (k : A -> Result B) : Result B :=
  match r with
  | Ok a => k a
  | Throw e => Throw e
  end.

Notation "x <- r ;; k" := (bind r (fun x => k))
  (at level 61, r at next level, right associativity).

(** [a[i]]. *)
Definition aget (a : list Z) (i : nat) : Result Z :=
  match nth_error a i with
  | Some v => Ok v
  | None => Throw ArrayIndexOutOfBoundsException
  end.

Fixpoint update (a : list Z) (i : nat) (v : Z) : list Z :=
  match a, i with
  | [], _ => []
  | _ :: a', O => v :: a'
  | x :: a', S i' => x :: update a' i' v
  end.

(** [a[i] = v]. *)
Definition aset (a : list Z) (i : nat) (v : Z) : Result (list Z) :=
  if (i <? List.length a)%nat then Ok (update a i v)
  else Throw ArrayIndexOutOfBoundsException.

(** [new int[len]]. *)
Definition newArray (len : Z) : Result (list Z) :=
  if len <? 0 then Throw NegativeArraySizeException
  else Ok (repeat 0 (Z.to_nat len)).

(** [java.util.Arrays.copyOf(a, newLength)]. *)
Definition copyOf (a : list Z) (newLength : nat) : list Z :=
  firstn newLength a ++ repeat 0 (newLength - List.length a).

(** [count] rounds of a loop body, the loop variable starting at [i] and
    growing by one each round. *)
Fixpoint loop {St : Type} (count i : nat) (body : nat -> St -> Result St) (s : St)
  : Result St :=
  match count with
  | O => Ok s
  | S c => s' <- body i s ;; loop c (S i) body s'
  end.

(** [for (int i = from; i < bound; i++) body], for a bound that the body
    does not change (the length of an array). *)
Definition for_ {St : Type} (from : nat) (bound : Z)
  (body : nat -> St -> Result St) (s : St) : Result St :=
  loop (Z.to_nat (bound - Z.of_nat from)) from body s.

Definition table_length (table : list Z) : Z := Z.of_nat (List.length table).

(** The body of the inner loop of [table_sort]. *)
Definition table_sort_compare (i j : nat) (table : list Z) : Result (list Z) :=
  ti <- aget table i ;;
  tj <- aget table j ;;
  if ti >? tj then
    temp <- aget table i ;;
    tj <- aget table j ;;
    table <- aset table i tj ;;
    aset table j temp
  else Ok table.

(** The body of its outer loop. *)
Definition table_sort_pass (i : nat) (table : list Z) : Result (list Z) :=
  for_ (i + 1) (table_length table) (table_sort_compare i) table.

Definition table_sort (table : list Z) : Result (list Z) :=
  for_ 0 (table_length table - 1) table_sort_pass table.

(** The local variables of [table_sort2] that its outer loop changes. *)
Record Locals : Type := mkLocals {
  l_table : list Z;
  l_negative : list Z;
  l_neg_index : nat;
  l_positive : list Z;
  l_pos_index : nat
}.

(** The body of the inner loop of [table_sort2]. *)
Definition table_sort2_scan (table : list Z) (j min_index : nat) : Result nat :=
  a <- aget table min_index ;;
  b <- aget table j ;;
  if a >? b then Ok j else Ok min_index.

(** One round of the outer loop of [table_sort2]. *)
Definition table_sort2_round (i : nat) (st : Locals) : Result Locals :=
  let table := l_table st in
  let min_index := i in
  min_index <- for_ i (table_length table) (table_sort2_scan table) min_index ;;
  min <- aget table min_index ;;
  ti <- aget table i ;;
  table <- aset table min_index ti ;;
  table <- aset table i min ;;
  ti <- aget table i ;;
  if ti <? 0 then
    ti <- aget table i ;;
    negative <- aset (l_negative st) (l_neg_index st) ti ;;
    Ok {| l_table := table;
          l_negative := negative;
          l_neg_index := l_neg_index st + 1;
          l_positive := l_positive st;
          l_pos_index := l_pos_index st |}
  else
    ti <- aget table i ;;
    positive <- aset (l_positive st) (l_pos_index st) ti ;;
    Ok {| l_table := table;
          l_negative := l_negative st;
          l_neg_index := l_neg_index st;
          l_positive := positive;
          l_pos_index := l_pos_index st + 1 |}.

(** [table_sort2] up to the end of its loop. *)
Definition table_sort2_loop (table : list Z) : Result Locals :=
  negative <- newArray (table_length table - 1) ;;
  let neg_index := O in
  positive <- newArray (table_length table - 1) ;;
  let pos_index := O in
  for_ 0 (table_length table) table_sort2_round
    {| l_table := table;
       l_negative := negative;
       l_neg_index := neg_index;
       l_positive := positive;
       l_pos_index := pos_index |}.

(** [table_sort2]: the two arrays of its result. *)
Definition table_sort2 (table : list Z) : Result (list Z * list Z) :=
  st <- table_sort2_loop table ;;
  Ok (copyOf (l_negative st) (l_neg_index st),
      copyOf (l_positive st) (l_pos_index st)).

(** The two halves of the result, as tests on an element. *)
Definition isNegative (x : Z) : bool := x <? 0.
Definition isNotNegative (x : Z) : bool := negb (x <? 0).

(** Before position [i] the array is in order, and no element from [i] on
    is below an element before [i]. *)
Definition sortedBelow (i : nat) (t : list Z) : Prop :=
  forall a b, (a < i)%nat -> (a < b < List.length t)%nat ->
              nth a t 0 <= nth b t 0.

(** What holds of the local variables of [table_sort2] before round [i],
    for the array [t0] it was called on: the table is a rearrangement of
    [t0], in order before [i]; the two arrays have one cell less than the
    table and hold, in their first [neg_index] and [pos_index] cells, the
    negative and the other elements of the first [i] cells of the table. *)
Definition sort2_invariant (t0 : list Z) (i : nat) (st : Locals) : Prop :=
  List.length (l_table st) = List.length t0
  /\ Permutation t0 (l_table st)
  /\ sortedBelow i (l_table st)
  /\ List.length (l_negative st) = (List.length t0 - 1)%nat
  /\ List.length (l_positive st) = (List.length t0 - 1)%nat
  /\ (l_neg_index st <= List.length t0 - 1)%nat
  /\ (l_pos_index st <= List.length t0 - 1)%nat
  /\ (l_neg_index st + l_pos_index st = i)%nat
  /\ firstn (l_neg_index st) (l_negative st)
     = filter isNegative (firstn i (l_table st))
  /\ firstn (l_pos_index st) (l_positive st)
     = filter isNotNegative (firstn i (l_table st)).

(** * The pop-up window: [openWindow] and [closeWindow] *)

(** A window the script has opened: the arguments [window.open] was given
    and whether the window has been closed since. *)
Record Popup : Type := mkPopup {
  popup_url : string;
  popup_options : string;
  closed : bool
}.

(** The variable [openedWindow] ([None] is [null]; a window is named by its
    position in the list of all windows opened so far), these windows, and
    the alerts shown. *)
Record Opener : Type := mkOpener {
  openedWindow : option nat;
  popups : list Popup;
  opener_alerts : list string
}.

Definition isOpen (st : Opener) (h : nat) : bool :=
  match nth_error (popups st) h with
  | Some w => negb (closed w)
  | None => false
  end.

(** [w.close()] for the window at position [h]. *)
Fixpoint closePopup (h : nat) (ws : list Popup) : list Popup :=
  match ws, h with
  | [], _ => []
  | w :: ws', O =>
      {| popup_url := popup_url w; popup_options := popup_options w;
         closed := true |} :: ws'
  | w :: ws', S h' => w :: closePopup h' ws'
  end.

(** [openedWindow && !openedWindow.closed]. *)
Definition openedAndNotClosed (st : Opener) : bool :=
  match openedWindow st with
  | Some h => isOpen st h
  | None => false
  end.

(** [openWindow] with the values of the three inputs; [blocked] tells
    whether the browser refuses the pop-up, in which case [window.open]
    returns [null]. *)
Definition openWindow (url width height : string) (blocked : bool) (st : Opener)
  : Opener :=
  if String.eqb url EmptyString then
    {| openedWindow := openedWindow st;
       popups := popups st;
       opener_alerts := opener_alerts st ++ ["Veuillez entrer une URL valide"%string] |}
  else
    let width := strOr width "600" in
    let height := strOr height "400" in
    let ws :=
      if openedAndNotClosed st then
        match openedWindow st with
        | Some h => closePopup h (popups st)
        | None => popups st
        end
      else popups st in
    let options :=
      ("width=" ++ width ++ ",height=" ++ height
       ++ ",resizable=yes,scrollbars=yes,location=yes")%string in
    if blocked then
      {| openedWindow := None; popups := ws; opener_alerts := opener_alerts st |}
    else
      {| openedWindow := Some (List.length ws);
         popups := ws ++ [{| popup_url := url; popup_options := options;
                             closed := false |}];
         opener_alerts := opener_alerts st |}.

(** [closeWindow]; [confirmed] is the answer to the confirmation. *)
Definition closeWindow (confirmed : bool) (st : Opener) : Opener :=
  if openedAndNotClosed st then
    if confirmed then
      {| openedWindow := openedWindow st;
         popups := match openedWindow st with
                   | Some h => closePopup h (popups st)
                   | None => popups st
                   end;
         opener_alerts := opener_alerts st |}
    else st
  else
    {| openedWindow := openedWindow st;
       popups := popups st;
       opener_alerts :=
         opener_alerts st ++ ["Aucune fenêtre n'est actuellement ouverte"%string] |}.

(** What can happen to the page: a click on either button, or the user
    closing a pop-up by hand. *)
Inductive OpenerEvent : Type :=
| ClickOpen (url width height : string) (blocked : bool)
| ClickClose (confirmed : bool)
| UserCloses (h : nat).

Definition openerStep (st : Opener) (e : OpenerEvent) : Opener :=
  match e with
  | ClickOpen url width height blocked => openWindow url width height blocked st
  | ClickClose confirmed => closeWindow confirmed st
  | UserCloses h =>
      {| openedWindow := openedWindow st;
         popups := closePopup h (popups st);
         opener_alerts := opener_alerts st |}
  end.

(** [let openedWindow = null]. *)
Definition opener0 : Opener :=
  {| openedWindow := None; popups := []; opener_alerts := [] |}.

(** Only the window [openedWindow] refers to can be open. *)
Definition soleWindow (st : Opener) : Prop :=
  forall h, isOpen st h = true -> openedWindow st = Some h.


(** ** A window that shrinks during a run *)




(** A string whose first and last characters, if any, are ASCII: on such a
    name, once the white space of ASCII is removed, no other white space is
    left at either end. *)
Definition isAscii (c : ascii) : bool := (nat_of_ascii c <? 128)%nat.

Fixpoint lastIsAscii (s : string) : bool :=
  match s with
  | EmptyString => true
  | String c EmptyString => isAscii c
  | String _ s' => lastIsAscii s'
  end.

Definition asciiEnds (s : string) : bool :=
  match s with
  | EmptyString => true
  | String c _ => isAscii c && lastIsAscii s
  end.

(** * Properties *)

(** ** One step of [moveLayer], field by field *)

Ltac cmp_cases :=
  repeat match goal with
  | |- context [?a >? ?b] => rewrite (Z.gtb_ltb a b)
  | |- context [?a >=? ?b] => rewrite (Z.geb_leb a b)
  | H : context [?a >? ?b] |- _ => rewrite (Z.gtb_ltb a b) in H
  | H : context [?a >=? ?b] |- _ => rewrite (Z.geb_leb a b) in H
  end;
  repeat match goal with
  | |- context [?a <? ?b] => destruct (Z.ltb_spec a b)
  | |- context [?a <=? ?b] => destruct (Z.leb_spec a b)
  | H : context [?a <? ?b] |- _ => destruct (Z.ltb_spec a b)
  | H : context [?a <=? ?b] |- _ => destruct (Z.leb_spec a b)
  end.

Lemma moveLayer_fields (win : Window) (s : World) :
  let x := style_left (layer s) + dx s in
  let w := Z.of_N (style_width (layer s)) in
  let h := Z.of_N (style_height (layer s)) in
  let b := bounceX (dx s) x (style_top (layer s) + dy s) w h
             (innerWidth win) (goingDown s) in
  let v := sweepY (goingDown s) (snd b) h (innerHeight win) in
  dx (moveLayer win s) = fst b
  /\ dy (moveLayer win s) = dy s
  /\ goingDown (moveLayer win s) = fst v
  /\ style_left (layer (moveLayer win s)) = x
  /\ style_top (layer (moveLayer win s)) = snd v
  /\ style_width (layer (moveLayer win s)) = style_width (layer s)
  /\ style_height (layer (moveLayer win s)) = style_height (layer s).
Proof.
  unfold moveLayer; cbn [getBoundingClientRect rect_left rect_top rect_width rect_height].
  destruct (bounceX _ _ _ _ _ _ _) as [d y1].
  destruct (sweepY _ _ _ _) as [g y2].
  cbn. repeat split.
Qed.

Lemma moveLayer_left (win : Window) (s : World) :
  style_left (layer (moveLayer win s)) = style_left (layer s) + dx s.
Proof. apply (moveLayer_fields win s). Qed.

Lemma moveLayer_dy (win : Window) (s : World) : dy (moveLayer win s) = dy s.
Proof. apply (moveLayer_fields win s). Qed.

Lemma moveLayer_size (win : Window) (s : World) :
  style_width (layer (moveLayer win s)) = style_width (layer s)
  /\ style_height (layer (moveLayer win s)) = style_height (layer s).
Proof. split; apply (moveLayer_fields win s). Qed.

Lemma moveLayer_dx (win : Window) (s : World) :
  dx (moveLayer win s) = if hitsWall win s then - dx s else dx s.
Proof.
  destruct (moveLayer_fields win s) as (-> & _).
  unfold bounceX, hitsWall, hitsRight, hitsLeft.
  destruct (_ && _); [reflexivity|]. destruct (_ && _); reflexivity.
Qed.

Lemma shiftedY_eq (win : Window) (s : World) :
  shiftedY win s =
  style_top (layer s) + dy s
  + (if hitsWall win s
     then if goingDown s then Z.of_N (style_height (layer s))
          else - Z.of_N (style_height (layer s))
     else 0).
Proof.
  unfold shiftedY, bounceX, hitsWall, hitsRight, hitsLeft; cbn.
  destruct (_ && _); cbn; [reflexivity|].
  destruct (_ && _); cbn; [reflexivity|lia].
Qed.

Lemma moveLayer_top (win : Window) (s : World) :
  style_top (layer (moveLayer win s)) =
  if hitsBottom win s (shiftedY win s) then
    innerHeight win - Z.of_N (style_height (layer s))
  else if hitsTop s (shiftedY win s) then 0
  else shiftedY win s.
Proof.
  destruct (moveLayer_fields win s) as (_ & _ & _ & _ & -> & _).
  unfold sweepY, hitsBottom, hitsTop, shiftedY; cbn.
  destruct (_ && _); [reflexivity|]. destruct (_ && _); reflexivity.
Qed.

Lemma moveLayer_goingDown (win : Window) (s : World) :
  goingDown (moveLayer win s) =
  if hitsBottom win s (shiftedY win s) then false
  else if hitsTop s (shiftedY win s) then true
  else goingDown s.
Proof.
  destruct (moveLayer_fields win s) as (_ & _ & -> & _).
  unfold sweepY, hitsBottom, hitsTop, shiftedY; cbn.
  destruct (_ && _); [reflexivity|]. destruct (_ && _); reflexivity.
Qed.

Lemma hits_exclusive (win : Window) (s : World) (y : Z) :
  hitsRight win s && hitsLeft win s = false
  /\ hitsBottom win s y && hitsTop s y = false.
Proof.
  unfold hitsRight, hitsLeft, hitsBottom, hitsTop. split.
  - cmp_cases; cbn; try reflexivity; lia.
  - destruct (goingDown s); cbn; [apply andb_false_r | reflexivity].
Qed.

Lemma run_S (win : Window) (n : nat) (s : World) :
  run win (S n) s = moveLayer win (run win n s).
Proof. reflexivity. Qed.

Lemma run_shift (win : Window) (n : nat) (s : World) :
  run win (S n) s = run win n (moveLayer win s).
Proof.
  induction n as [|n IH]; [reflexivity|].
  rewrite run_S, IH. reflexivity.
Qed.

Lemma run_add (win : Window) (n m : nat) (s : World) :
  run win (n + m) s = run win n (run win m s).
Proof. unfold run. apply Nat.iter_add. Qed.

Lemma steps_speed (wins : list Window) :
  forall s, Z.abs (dx (steps wins s)) = Z.abs (dx s).
Proof.
  induction wins as [|win wins IH]; intros s; [reflexivity|].
  unfold steps in *; cbn. rewrite IH, moveLayer_dx.
  destruct (hitsWall win s); lia.
Qed.

(** ** The update step against its description *)

Lemma spec_reflects_hitsWall (win : Window) (s : World) :
  spec_reflects (motionOf s) (boundsOf win) = hitsWall win s.
Proof.
  unfold spec_reflects, hitsWall, hitsRight, hitsLeft, motionOf, boundsOf; cbn.
  rewrite Z.gtb_ltb, Z.geb_leb. reflexivity.
Qed.

(** C1.  A step of [moveLayer] is the step of the design document: the
    reflection event it detects is the documented one; on that event, and
    only then, [y] is shifted by [+height] when descending and by [-height]
    when ascending; and the phase test (bottom: clamp to
    [bounds.height - height] and turn to ascending; top: clamp to 0 and turn
    to descending) is applied to the shifted [y] on every step.  ([dy] is 0
    in every state of the program.) *)
Theorem moveLayer_vertical_spec (win : Window) (s : World) :
  dy s = 0 ->
  spec_reflects (motionOf s) (boundsOf win) = hitsWall win s
  /\ shiftedY win s = spec_shift (motionOf s) (boundsOf win)
  /\ (position_y (motionOf (moveLayer win s)),
      verticalPhase (motionOf (moveLayer win s)))
     = spec_vertical (motionOf s) (boundsOf win).
Proof.
  intros Hdy.
  assert (Hshift : shiftedY win s = spec_shift (motionOf s) (boundsOf win)).
  { unfold spec_shift. rewrite spec_reflects_hitsWall, shiftedY_eq, Hdy.
    unfold motionOf; cbn.
    destruct (hitsWall win s); [destruct (goingDown s); cbn; lia | lia]. }
  split; [apply spec_reflects_hitsWall|]. split; [exact Hshift|].
  unfold spec_vertical. rewrite <- Hshift.
  unfold motionOf at 1 2; cbn [position_y verticalPhase].
  rewrite moveLayer_top, moveLayer_goingDown.
  unfold hitsBottom, hitsTop, spec_phase_test, motionOf, boundsOf; cbn.
  rewrite Z.geb_leb.
  destruct (goingDown s); cbn;
    [destruct (_ <=? _) | destruct (_ <=? _)]; reflexivity.
Qed.

Lemma moveLayer_vertical_spec_witness :
  (position_y (motionOf (moveLayer cornerWindow (run cornerWindow 216 cornerStart))),
   verticalPhase (motionOf (moveLayer cornerWindow (run cornerWindow 216 cornerStart))))
  = spec_vertical (motionOf (run cornerWindow 216 cornerStart)) (boundsOf cornerWindow).
Proof.
  apply (moveLayer_vertical_spec cornerWindow (run cornerWindow 216 cornerStart)).
  vm_compute. reflexivity.
Defined.

(** C10.  In one step the two wall tests exclude each other and so do the
    two phase tests: [dx] is negated once or not at all, [goingDown] is
    toggled once or not at all, and the [y] that reaches the phase test
    differs from the [y] before the step by 0, by [+height] or by [-height]. *)
Theorem step_flips_at_most_once (win : Window) (s : World) :
  dy s = 0 ->
  hitsRight win s && hitsLeft win s = false
  /\ hitsBottom win s (shiftedY win s) && hitsTop s (shiftedY win s) = false
  /\ dx (moveLayer win s)
     = (if hitsRight win s || hitsLeft win s then - dx s else dx s)
  /\ goingDown (moveLayer win s)
     = (if hitsBottom win s (shiftedY win s) || hitsTop s (shiftedY win s)
        then negb (goingDown s) else goingDown s)
  /\ (shiftedY win s - style_top (layer s) = 0
      \/ shiftedY win s - style_top (layer s) = Z.of_N (style_height (layer s))
      \/ shiftedY win s - style_top (layer s) = - Z.of_N (style_height (layer s))).
Proof.
  intros Hdy.
  destruct (hits_exclusive win s (shiftedY win s)) as [Hx Hy].
  repeat split; try assumption.
  - apply moveLayer_dx.
  - rewrite moveLayer_goingDown. unfold hitsBottom, hitsTop.
    destruct (goingDown s); cbn; [destruct (_ >=? _) | destruct (_ <=? _)];
      reflexivity.
  - rewrite shiftedY_eq, Hdy.
    destruct (hitsWall win s); [destruct (goingDown s)|]; lia.
Qed.

Lemma step_flips_at_most_once_witness :
  dx (moveLayer cornerWindow (run cornerWindow 216 cornerStart)) = -3
  /\ shiftedY cornerWindow (run cornerWindow 216 cornerStart)
     - style_top (layer (run cornerWindow 216 cornerStart)) = 100.
Proof.
  destruct (step_flips_at_most_once cornerWindow (run cornerWindow 216 cornerStart))
    as (_ & _ & Hdx & _ & _).
  - vm_compute. reflexivity.
  - split; [rewrite Hdx|]; vm_compute; reflexivity.
Defined.

(** ** Reflection at the walls *)

(** C3.  A step always leaves [x] at the old [x] plus the old [dx], also
    when it meets a wall; meeting a wall only negates [dx], so the speed
    [|dx|] is the same after any number of steps in any windows; the step
    after a reflection brings [x] back to where it was before the
    reflecting step; and a reflecting step can leave the layer past the
    wall (here by one pixel: 651 + 150 = 801 in a window 800 wide). *)
Theorem reflection_flips_sign_only (win : Window) (s : World) :
  style_left (layer (moveLayer win s)) = style_left (layer s) + dx s
  /\ (forall wins, Z.abs (dx (steps wins s)) = Z.abs (dx s))
  /\ (hitsWall win s = true ->
      dx (moveLayer win s) = - dx s
      /\ forall win', style_left (layer (moveLayer win' (moveLayer win s)))
                      = style_left (layer s))
  /\ (hitsWall win s = false -> dx (moveLayer win s) = dx s)
  /\ (exists win0 s0,
        hitsWall win0 s0 = true
        /\ style_left (layer (moveLayer win0 s0))
           + Z.of_N (style_width (layer (moveLayer win0 s0)))
           > innerWidth win0).
Proof.
  split; [apply moveLayer_left|].
  split; [intros wins; apply steps_speed|].
  split; [|split].
  - intros Hhit. pose proof (moveLayer_dx win s) as Hdx. rewrite Hhit in Hdx.
    split; [exact Hdx|]. intros win'.
    rewrite !moveLayer_left, Hdx. lia.
  - intros Hhit. rewrite moveLayer_dx, Hhit. reflexivity.
  - exists cornerWindow, (run cornerWindow 216 cornerStart).
    split; vm_compute; reflexivity.
Qed.

Lemma reflection_flips_sign_only_witness :
  dx (moveLayer cornerWindow (run cornerWindow 216 cornerStart)) = 3 * -1
  /\ style_left
       (layer (moveLayer smallWindow
                 (moveLayer cornerWindow (run cornerWindow 216 cornerStart))))
     = 648.
Proof.
  destruct (reflection_flips_sign_only cornerWindow (run cornerWindow 216 cornerStart))
    as (_ & _ & Hhit & _).
  destruct Hhit as [Hdx Hback]; [vm_compute; reflexivity|].
  split; [rewrite Hdx | rewrite Hback]; vm_compute; reflexivity.
Defined.

(** ** The vertical phase *)

Lemma toggles_none (win : Window) (n : nat) :
  forall s, toggles win n s = O -> goingDown (run win n s) = goingDown s.
Proof.
  induction n as [|n IH]; intros s H; [reflexivity|].
  rewrite run_shift. cbn [toggles] in H.
  destruct (Bool.eqb _ _) eqn:E; [|discriminate].
  apply eqb_prop in E. rewrite IH by exact H. exact E.
Qed.

(** C5.  A step changes the phase only together with the clamp of [y]:
    from descending to ascending with [y = bounds.height - height], from
    ascending to descending with [y = 0]; over steps none of which toggles
    it the phase stays what it was; and the phase is always one of
    DESCENDING and ASCENDING. *)
Theorem phase_toggles_at_extremes (win : Window) (s : World) :
  (goingDown s = true -> goingDown (moveLayer win s) = false ->
   style_top (layer (moveLayer win s))
   = innerHeight win - Z.of_N (style_height (layer s)))
  /\ (goingDown s = false -> goingDown (moveLayer win s) = true ->
      style_top (layer (moveLayer win s)) = 0)
  /\ (forall n, toggles win n s = O ->
      verticalPhase (motionOf (run win n s)) = verticalPhase (motionOf s))
  /\ (verticalPhase (motionOf s) = DESCENDING
      \/ verticalPhase (motionOf s) = ASCENDING).
Proof.
  rewrite moveLayer_top, moveLayer_goingDown.
  unfold hitsBottom, hitsTop.
  repeat split.
  - intros ->; cbn. destruct (_ >=? _); [reflexivity | discriminate].
  - intros ->; cbn. destruct (_ <=? _); [reflexivity | discriminate].
  - intros n H. unfold motionOf; cbn. f_equal. apply toggles_none, H.
  - unfold motionOf; cbn. destruct (goingDown s); [left | right]; reflexivity.
Qed.

Lemma phase_toggles_at_extremes_witness :
  style_top (layer (moveLayer smallWindow oversizedStart)) = 100 - 150
  /\ style_top (layer (moveLayer smallWindow (moveLayer smallWindow oversizedStart)))
     = 0.
Proof.
  split.
  - apply (phase_toggles_at_extremes smallWindow oversizedStart);
      vm_compute; reflexivity.
  - apply (phase_toggles_at_extremes smallWindow (moveLayer smallWindow oversizedStart));
      vm_compute; reflexivity.
Defined.

(** ** The position stays in the window *)

Lemma onGrid_step (v : Z) (win : Window) (s : World) :
  0 <= v -> onGrid v s -> onGrid v (moveLayer win s).
Proof.
  intros Hv (k & Hk & Hx & Hd). unfold onGrid.
  rewrite moveLayer_left, moveLayer_dx.
  unfold hitsWall, hitsRight, hitsLeft.
  destruct Hd as [Hd | [Hd Hpos]]; rewrite Hd.
  - exists (k + 1). split; [lia|]. split; [lia|].
    cmp_cases; cbn; try (left; reflexivity); right; split; nia.
  - assert (1 <= k) by nia. assert (0 < v) by nia.
    exists (k - 1). split; [lia|]. split; [lia|].
    cmp_cases; cbn; try lia;
      try (left; lia); right; split; lia.
Qed.

Lemma onGrid_nonneg (v : Z) (s : World) :
  0 <= v -> onGrid v s -> 0 <= style_left (layer s).
Proof. intros Hv (k & Hk & -> & _). nia. Qed.

Lemma onGrid_steps (v : Z) (wins : list Window) :
  forall s, 0 <= v -> onGrid v s -> onGrid v (steps wins s).
Proof.
  induction wins as [|win wins IH]; intros s Hv H; [exact H|].
  unfold steps in *; cbn. apply IH; [exact Hv|]. apply onGrid_step; assumption.
Qed.

Lemma onGrid_reset (inp : Inputs) (s : World) :
  onGrid (Z.abs (dx s)) (resetWorld inp s).
Proof. exists 0. cbn. split; [lia|]. split; [reflexivity|]. left; reflexivity. Qed.






(** ** The corner contact scenario *)

Lemma corner_before_contact :
  forallb (fun k => negb (hitsWall cornerWindow (run cornerWindow k cornerStart)))
    (seq 0 216) = true.
Proof. vm_compute. reflexivity. Qed.

(** C4, as the code has it.  With a layer of 150 by 100 started at (0, 150)
    in a window of 800 by 600, none of the first 216 steps meets a wall; the
    217th moves [x] from 648 to 651, meets the right wall
    (651 + 150 >= 800), turns [dx] to -3 and shifts [y] to 250 in that same
    step; the bottom test does not fire (250 + 100 < 600) and the phase
    stays DESCENDING. *)
Theorem corner_contact_at_651 :
  forallb (fun k => negb (hitsWall cornerWindow (run cornerWindow k cornerStart)))
    (seq 0 216) = true
  /\ motionOf cornerStart
     = {| position_x := 0; position_y := 150;
          size_width := 150; size_height := 100;
          velocityX := 3; verticalPhase := DESCENDING |}
  /\ hitsRight cornerWindow (run cornerWindow 216 cornerStart) = true
  /\ style_left (layer (run cornerWindow 216 cornerStart))
     + dx (run cornerWindow 216 cornerStart) = 651
  /\ hitsBottom cornerWindow (run cornerWindow 216 cornerStart)
       (shiftedY cornerWindow (run cornerWindow 216 cornerStart)) = false
  /\ motionOf (run cornerWindow 217 cornerStart)
     = {| position_x := 651; position_y := 250;
          size_width := 150; size_height := 100;
          velocityX := -3; verticalPhase := DESCENDING |}.
Proof.
  split; [exact corner_before_contact|].
  split; [vm_compute; reflexivity|].
  split; [vm_compute; reflexivity|].
  split; [vm_compute; reflexivity|].
  split; vm_compute; reflexivity.
Qed.

(** C4, as it is stated, fails: the step that first meets the wall does not
    move [x] to 656. *)
Lemma corner_contact_not_at_656 :
  ~ (exists n,
        (forall k, (k < n)%nat ->
           hitsWall cornerWindow (run cornerWindow k cornerStart) = false)
        /\ hitsWall cornerWindow (run cornerWindow n cornerStart) = true
        /\ style_left (layer (run cornerWindow n cornerStart))
           + dx (run cornerWindow n cornerStart) = 656).
Proof.
  intros (n & Hbefore & Hhit & Hx).
  pose proof corner_before_contact as Hall.
  rewrite forallb_forall in Hall.
  destruct (Nat.lt_trichotomy n 216) as [Hlt | [Heq | Hgt]].
  - assert (Hin : In n (seq 0 216)) by (apply in_seq; lia).
    apply Hall in Hin. rewrite Hhit in Hin. discriminate Hin.
  - subst n. revert Hx. vm_compute. discriminate.
  - specialize (Hbefore 216%nat Hgt). revert Hbefore. vm_compute. discriminate.
Qed.

(** ** A step only depends on the motion state *)

Lemma motionOf_fields (a b : World) :
  motionOf a = motionOf b ->
  style_left (layer a) = style_left (layer b)
  /\ style_top (layer a) = style_top (layer b)
  /\ style_width (layer a) = style_width (layer b)
  /\ style_height (layer a) = style_height (layer b)
  /\ dx a = dx b
  /\ goingDown a = goingDown b.
Proof.
  unfold motionOf. intros H. injection H as Hx Hy Hw Hh Hd Hp.
  apply N2Z.inj in Hw, Hh.
  repeat split; try assumption.
  destruct (goingDown a), (goingDown b); cbn in Hp; congruence.
Qed.

Lemma moveLayer_motion_ext (win : Window) (a b : World) :
  motionOf a = motionOf b -> dy a = dy b ->
  motionOf (moveLayer win a) = motionOf (moveLayer win b).
Proof.
  intros Hm Hdy.
  destruct (motionOf_fields a b Hm) as (Hx & Hy & Hw & Hh & Hd & Hg).
  assert (Hwall : hitsWall win a = hitsWall win b).
  { unfold hitsWall, hitsRight, hitsLeft. rewrite Hx, Hw, Hd. reflexivity. }
  assert (Hs : shiftedY win a = shiftedY win b).
  { rewrite !shiftedY_eq, Hwall, Hy, Hdy, Hg, Hh. reflexivity. }
  unfold motionOf.
  rewrite !moveLayer_left, !moveLayer_top, !moveLayer_goingDown, !moveLayer_dx.
  destruct (moveLayer_size win a) as [-> ->].
  destruct (moveLayer_size win b) as [-> ->].
  unfold hitsBottom, hitsTop.
  rewrite Hwall, Hs, Hx, Hw, Hh, Hd, Hg. reflexivity.
Qed.

Lemma phaseOf_goingDown (s : World) :
  goingDown s =
  match verticalPhase (motionOf s) with DESCENDING => true | ASCENDING => false end.
Proof. unfold motionOf; cbn. destruct (goingDown s); reflexivity. Qed.

(** ** A layer larger than the window *)

Lemma oversized_from_start (s : World) :
  motionOf s = motionOf oversizedStart -> dy s = 0 ->
  motionOf (moveLayer smallWindow s) = oversizedBelow.
Proof.
  intros Hm Hdy.
  rewrite (moveLayer_motion_ext smallWindow s oversizedStart Hm Hdy).
  vm_compute. reflexivity.
Qed.

Lemma oversized_from_origin (s : World) :
  motionOf s = oversizedAtOrigin -> dy s = 0 ->
  motionOf (moveLayer smallWindow s) = oversizedBelow.
Proof.
  intros Hm Hdy.
  rewrite (moveLayer_motion_ext smallWindow s (run smallWindow 2 oversizedStart));
    [vm_compute; reflexivity | rewrite Hm; vm_compute; reflexivity | exact Hdy].
Qed.

Lemma oversized_from_below (s : World) :
  motionOf s = oversizedBelow -> dy s = 0 ->
  motionOf (moveLayer smallWindow s) = oversizedAtOrigin.
Proof.
  intros Hm Hdy.
  rewrite (moveLayer_motion_ext smallWindow s (run smallWindow 1 oversizedStart));
    [vm_compute; reflexivity | rewrite Hm; vm_compute; reflexivity | exact Hdy].
Qed.

Lemma oversized_toggles (n : nat) :
  forall s, dy s = 0 ->
    motionOf s = motionOf oversizedStart
    \/ motionOf s = oversizedBelow
    \/ motionOf s = oversizedAtOrigin ->
    toggles smallWindow n s = n.
Proof.
  induction n as [|n IH]; intros s Hdy Hm; [reflexivity|].
  cbn [toggles].
  assert (Hdy' : dy (moveLayer smallWindow s) = 0) by (rewrite moveLayer_dy; exact Hdy).
  rewrite (phaseOf_goingDown s), (phaseOf_goingDown (moveLayer smallWindow s)).
  destruct Hm as [Hm | [Hm | Hm]].
  - pose proof (oversized_from_start s Hm Hdy) as Hm'.
    rewrite IH by (auto). rewrite Hm, Hm'. reflexivity.
  - pose proof (oversized_from_below s Hm Hdy) as Hm'.
    rewrite IH by (auto). rewrite Hm, Hm'. reflexivity.
  - pose proof (oversized_from_origin s Hm Hdy) as Hm'.
    rewrite IH by (auto). rewrite Hm, Hm'. reflexivity.
Qed.

Lemma oversized_alternates (n : nat) :
  dy (run smallWindow (2 * n + 1) oversizedStart) = 0
  /\ motionOf (run smallWindow (2 * n + 1) oversizedStart) = oversizedBelow
  /\ motionOf (run smallWindow (2 * n + 2) oversizedStart) = oversizedAtOrigin.
Proof.
  induction n as [|n (Hdy & H1 & H2)].
  - repeat split.
  - replace (2 * S n + 1)%nat with (S (2 * n + 2)) by lia.
    replace (2 * S n + 2)%nat with (S (S (2 * n + 2))) by lia.
    rewrite !run_S.
    assert (Hdy2 : dy (run smallWindow (2 * n + 2) oversizedStart) = 0).
    { replace (2 * n + 2)%nat with (S (2 * n + 1)) by lia.
      rewrite run_S, moveLayer_dy. exact Hdy. }
    pose proof (oversized_from_origin _ H2 Hdy2) as H3.
    split; [rewrite moveLayer_dy; exact Hdy2|].
    split; [exact H3|].
    apply oversized_from_below; [exact H3 | rewrite moveLayer_dy; exact Hdy2].
Qed.

(** C6, as it is stated, fails: the first step of the layer of 150 by 150
    in the window of 100 by 100 ends at [y = -50], and the phase toggles in
    each of the first 1000 steps. *)
Lemma oversized_layer_goes_negative :
  style_top (layer (run smallWindow 1 oversizedStart)) = -50
  /\ toggles smallWindow 1000 oversizedStart = 1000%nat.
Proof. split; vm_compute; reflexivity. Qed.

(** ** Starting again *)

Lemma moveLayer_layer (win : Window) (s : World) :
  layer (moveLayer win s)
  = set_top (style_top (layer (moveLayer win s)))
      (set_left (style_left (layer (moveLayer win s))) (layer s)).
Proof.
  unfold moveLayer.
  destruct (bounceX _ _ _ _ _ _ _) as [d y1].
  destruct (sweepY _ _ _ _) as [g y2].
  reflexivity.
Qed.



(** ** The reachable states and the scheduler *)

Lemma moveLayer_frames (win : Window) (s : World) :
  animationId (moveLayer win s) = Some (nextHandle (frames s))
  /\ pending (frames (moveLayer win s))
     = pending (frames s) ++ [nextHandle (frames s)].
Proof.
  unfold moveLayer.
  destruct (bounceX _ _ _ _ _ _ _) as [d y1].
  destruct (sweepY _ _ _ _) as [g y2].
  split; reflexivity.
Qed.

Lemma cancel_only_pending (h : positive) (q : FrameQueue) :
  pending q = [h] -> pending (cancelAnimationFrame (Some h) q) = [].
Proof. intros E. cbn. rewrite E. cbn. rewrite Pos.eqb_refl. reflexivity. Qed.

(** The states in which at most one callback is pending, the one whose
    handle [animationId] holds. *)
Lemma Reachable_invariant (l0 : Layer) (s : World) :
  Reachable l0 s ->
  Z.abs (dx s) = 3
  /\ dy s = 0
  /\ pending (frames s)
     = match animationId s with Some h => [h] | None => [] end.
Proof.
  induction 1 as [|s e _ (Hdx & Hdy & Hq)].
  - repeat split.
  - assert (Hcancel : pending (cancelAnimationFrame (animationId s) (frames s)) = []).
    { destruct (animationId s) as [h|]; [apply cancel_only_pending|]; exact Hq. }
    destruct e as [inp win | win | win]; cbn [dispatch].
    + unfold startAnimation.
      destruct (moveLayer_frames win (resetWorld inp s)) as [Eid Ep].
      rewrite moveLayer_dx, moveLayer_dy, Eid, Ep.
      cbn [resetWorld dx dy frames]. rewrite Hcancel.
      repeat split. destruct (hitsWall _ _); lia.
    + unfold onFrame. rewrite Hq.
      destruct (animationId s) as [h|] eqn:Eh; cbn [fold_left];
        [|rewrite Eh; repeat split; assumption].
      unfold runCallback. rewrite Hq. cbn [existsb]. rewrite Pos.eqb_refl.
      cbn [orb].
      match goal with |- context [moveLayer win ?t] => set (s1 := t) end.
      destruct (moveLayer_frames win s1) as [Eid Ep].
      rewrite moveLayer_dx, moveLayer_dy, Eid, Ep.
      subst s1; cbn [dx dy frames]. rewrite Hcancel.
      repeat split; [destruct (hitsWall _ _); lia | exact Hdy].
    + unfold onResize.
      destruct (animationId s) as [h|] eqn:Eh;
        [|rewrite Eh; repeat split; assumption].
      match goal with |- context [moveLayer win ?t] => set (s1 := t) end.
      destruct (moveLayer_frames win s1) as [Eid Ep].
      rewrite moveLayer_dx, moveLayer_dy, Eid, Ep.
      subst s1; cbn [dx dy frames]. rewrite Hcancel.
      repeat split; [destruct (hitsWall _ _); lia | exact Hdy].
Qed.

(** Every reachable state has the speed 3, so [startAnimation] always
    starts with [dx = 3]. *)
Lemma Reachable_start_speed (l0 : Layer) (s : World) (inp : Inputs) :
  Reachable l0 s -> dx (resetWorld inp s) = 3.
Proof. intros H. destruct (Reachable_invariant l0 s H) as (Hdx & _). exact Hdx. Qed.

(** An animation frame of an active run is one call of [moveLayer]. *)
Lemma onFrame_one_step (l0 : Layer) (s : World) (win : Window) :
  Reachable l0 s ->
  animationId s <> None ->
  motionOf (onFrame win s) = motionOf (moveLayer win s)
  /\ animationId (onFrame win s) <> None.
Proof.
  intros Hreach Hrun.
  destruct (Reachable_invariant l0 s Hreach) as (_ & _ & Hq).
  unfold onFrame. rewrite Hq.
  destruct (animationId s) as [h|]; [|congruence].
  cbn [fold_left]. unfold runCallback. rewrite Hq. cbn [existsb].
  rewrite Pos.eqb_refl. cbn [orb].
  match goal with |- context [moveLayer win ?t] => set (s1 := t) end.
  split; [apply moveLayer_motion_ext; reflexivity|].
  destruct (moveLayer_frames win s1) as [-> _]. discriminate.
Qed.

(** The frames that follow a click are the steps of [run]: after [n]
    frames the motion state is that of [n + 1] steps from the reset state. *)
Lemma frames_after_click (l0 : Layer) (s : World) (inp : Inputs) (win : Window) :
  Reachable l0 s ->
  forall n,
    let t := Nat.iter n (onFrame win) (startAnimation inp win s) in
    Reachable l0 t
    /\ animationId t <> None
    /\ motionOf t = motionOf (run win (S n) (resetWorld inp s))
    /\ dy (run win (S n) (resetWorld inp s)) = 0.
Proof.
  intros Hreach n. induction n as [|n (Hr & Hid & Hm & Hdy)]; cbn zeta.
  - cbn [Nat.iter nat_rect]. split; [apply (Reachable_event l0 s (Click inp win) Hreach)|].
    unfold startAnimation.
    destruct (moveLayer_frames win (resetWorld inp s)) as [-> _].
    split; [discriminate|]. split; [reflexivity|].
    rewrite run_S, moveLayer_dy. reflexivity.
  - cbn zeta in Hr, Hid, Hm. rewrite Nat.iter_succ.
    set (t := Nat.iter n (onFrame win) (startAnimation inp win s)) in *.
    destruct (onFrame_one_step l0 t win Hr Hid) as [Hstep Hid'].
    split; [apply (Reachable_event l0 t (AnimationFrame win) Hr)|].
    split; [exact Hid'|].
    split; [|rewrite run_S, moveLayer_dy; exact Hdy].
    rewrite Hstep, (run_S win (S n)).
    apply moveLayer_motion_ext; [exact Hm|].
    destruct (Reachable_invariant l0 t Hr) as (_ & -> & _). symmetry; exact Hdy.
Qed.

(** C9.  While a run is active (a callback has been requested, so
    [animationId] is set) the resize listener does what one call of
    [moveLayer] in the new window does to the layer, to [dx] and to the
    phase: nothing is reset, the speed [|dx|] is unchanged, and afterwards
    exactly one callback is pending, the one [animationId] names. *)
Theorem resize_runs_one_step (l0 : Layer) (s : World) (win : Window) :
  Reachable l0 s ->
  animationId s <> None ->
  motionOf (onResize win s) = motionOf (moveLayer win s)
  /\ layer (onResize win s) = layer (moveLayer win s)
  /\ dy (onResize win s) = dy s
  /\ Z.abs (dx (onResize win s)) = Z.abs (dx s)
  /\ (exists h, animationId (onResize win s) = Some h
                /\ pending (frames (onResize win s)) = [h]).
Proof.
  intros Hreach Hrun.
  destruct (Reachable_invariant l0 s Hreach) as (Hdx & Hdy & Hq).
  pose proof (Reachable_invariant l0 _ (Reachable_event l0 s (Resize win) Hreach))
    as (Hdx' & Hdy' & Hq').
  cbn [dispatch] in *.
  assert (Hm : motionOf (onResize win s) = motionOf (moveLayer win s)).
  { unfold onResize. destruct (animationId s); [|congruence].
    apply moveLayer_motion_ext; reflexivity. }
  split; [exact Hm|].
  split.
  { unfold onResize. destruct (animationId s); [|congruence].
    unfold moveLayer; cbn [dx dy goingDown layer].
    destruct (bounceX _ _ _ _ _ _ _) as [d y1].
    destruct (sweepY _ _ _ _) as [g y2]. reflexivity. }
  split; [lia|]. split; [lia|].
  unfold onResize in *. destruct (animationId s) as [h|]; [|congruence].
  match goal with |- context [moveLayer win ?t] => set (s1 := t) in * end.
  destruct (moveLayer_frames win s1) as [Eid _].
  rewrite Eid in Hq'. exists (nextHandle (frames s1)). split; assumption.
Qed.

Lemma resize_runs_one_step_witness :
  motionOf
    (onResize smallWindow
       (dispatch (dispatch (initWorld (plainLayer 0 0))
                    (Click (sizeInputs "150" "100") cornerWindow))
          (AnimationFrame cornerWindow)))
  = motionOf
      (moveLayer smallWindow
         (dispatch (dispatch (initWorld (plainLayer 0 0))
                      (Click (sizeInputs "150" "100") cornerWindow))
            (AnimationFrame cornerWindow))).
Proof.
  apply (resize_runs_one_step (plainLayer 0 0)).
  - apply Reachable_event, Reachable_event, Reachable_init.
  - vm_compute. discriminate.
Defined.

(** ** Reading the opacity *)

(** C8.  With "0" typed as the opacity, [parseFloat] yields the number 0,
    [||] takes it for absent, and the layer is given the opacity 1. *)
Theorem zero_opacity_replaced :
  parseFloat (opacityInput zeroOpacityInputs) = Dec 0 0
  /\ configOpacity zeroOpacityInputs = Dec 1 0
  /\ style_opacity
       (layer (startAnimation zeroOpacityInputs cornerWindow
                 (initWorld (plainLayer 0 0))))
     = Dec 1 0.
Proof. repeat split. Qed.

(** * Further properties of the animation *)

(** ** What the form can and cannot set *)

Lemma trimStart_blank (s : string) :
  isBlank s = true -> trimStart s = EmptyString.
Proof.
  induction s as [|c s IH]; [reflexivity|].
  cbn. destruct (isWhiteSpace c); [exact IH | discriminate].
Qed.

Lemma parseInt_blank (s : string) : isBlank s = true -> parseInt s = None.
Proof. intros H. unfold parseInt. rewrite (trimStart_blank s H). reflexivity. Qed.

Lemma parseFloat_blank (s : string) : isBlank s = true -> parseFloat s = NaN.
Proof. intros H. unfold parseFloat. rewrite (trimStart_blank s H). reflexivity. Qed.

(** X1.  When the width, height and opacity fields are empty or hold white
    space only and the text field is empty, [startAnimation] gives the layer
    its defaults: 150 wide, 100 high, opacity 1, the text "Calque". *)
Theorem blank_form_gets_defaults (inp : Inputs) (win : Window) (s : World) :
  isBlank (widthInput inp) = true ->
  isBlank (heightInput inp) = true ->
  isBlank (opacityInput inp) = true ->
  textInput inp = EmptyString ->
  style_width (layer (startAnimation inp win s)) = 150%N
  /\ style_height (layer (startAnimation inp win s)) = 100%N
  /\ style_opacity (layer (startAnimation inp win s)) = Dec 1 0
  /\ textContent (layer (startAnimation inp win s)) = "Calque"%string.
Proof.
  intros Hw Hh Ho Ht. unfold startAnimation.
  rewrite (moveLayer_layer win (resetWorld inp s)).
  cbn [set_top set_left style_width style_height style_opacity textContent
       style_backgroundColor resetWorld layer styleLayer].
  unfold configWidth, configHeight, configOpacity, configText.
  rewrite (parseInt_blank _ Hw), (parseInt_blank _ Hh), (parseFloat_blank _ Ho), Ht.
  repeat split.
Qed.

Lemma blank_form_gets_defaults_witness :
  style_opacity
    (layer (startAnimation (mkInputs "red" "  " EmptyString EmptyString " ")
              cornerWindow (initWorld (plainLayer 0 0))))
  = Dec 1 0.
Proof.
  apply (blank_form_gets_defaults (mkInputs "red" "  " EmptyString EmptyString " "));
    reflexivity.
Defined.

(** Reading a numeral back. *)

Lemma digitsPrefix_numeral_acc (d : Decimal.uint) (acc : positive) :
  digitsPrefix 10 (NilEmpty.string_of_uint d) (Some (Zpos acc))
  = Some (Zpos (Pos.of_uint_acc d acc)).
Proof.
  revert acc. induction d; intros acc; cbn [NilEmpty.string_of_uint digitsPrefix Pos.of_uint_acc];
    try reflexivity;
    change (digitValue _) with (Some 0) || change (digitValue _) with (Some 1)
    || change (digitValue _) with (Some 2) || change (digitValue _) with (Some 3)
    || change (digitValue _) with (Some 4) || change (digitValue _) with (Some 5)
    || change (digitValue _) with (Some 6) || change (digitValue _) with (Some 7)
    || change (digitValue _) with (Some 8) || change (digitValue _) with (Some 9);
    cbv iota beta; 
    match goal with |- context [?a <? 10] => change (a <? 10) with true end;
    cbv iota; rewrite <- IHd; f_equal; f_equal; lia.
Qed.

Lemma digitsPrefix_numeral (d : Decimal.uint) :
  digitsPrefix 10 (NilEmpty.string_of_uint d) (Some 0)
  = Some (Z.of_N (Pos.of_uint d)).
Proof.
  induction d; cbn [NilEmpty.string_of_uint digitsPrefix Pos.of_uint];
    try reflexivity;
    change (digitValue _) with (Some 0) || change (digitValue _) with (Some 1)
    || change (digitValue _) with (Some 2) || change (digitValue _) with (Some 3)
    || change (digitValue _) with (Some 4) || change (digitValue _) with (Some 5)
    || change (digitValue _) with (Some 6) || change (digitValue _) with (Some 7)
    || change (digitValue _) with (Some 8) || change (digitValue _) with (Some 9);
    cbv iota beta;
    match goal with |- context [?a <? 10] => change (a <? 10) with true end;
    cbv iota; [exact IHd | ..];
    match goal with |- context [Some (10 * 0 + ?k)] =>
      change (10 * 0 + k) with k end;
    apply digitsPrefix_numeral_acc.
Qed.

Lemma parseInt_uint (d : Decimal.uint) :
  d <> Decimal.Nil ->
  parseInt (NilEmpty.string_of_uint d) = Some (Z.of_N (Pos.of_uint d)).
Proof.
  intros Hd.
  assert (H : parseInt (NilEmpty.string_of_uint d)
              = match digitsPrefix 10 (NilEmpty.string_of_uint d) None with
                | Some v => Some v
                | None => None
                end).
  { destruct d as [|d|d|d|d|d|d|d|d|d|d]; [congruence | | reflexivity ..].
    destruct d; reflexivity. }
  rewrite H.
  assert (H0 : digitsPrefix 10 (NilEmpty.string_of_uint d) None
               = digitsPrefix 10 (NilEmpty.string_of_uint d) (Some 0)).
  { destruct d; [congruence | reflexivity ..]. }
  rewrite H0, digitsPrefix_numeral. reflexivity.
Qed.

Lemma parseInt_numeral (n : N) : parseInt (numeral n) = Some (Z.of_N n).
Proof.
  unfold numeral. rewrite parseInt_uint.
  - change (Pos.of_uint (N.to_uint n)) with (N.of_uint (N.to_uint n)).
    rewrite DecimalN.Unsigned.of_to. reflexivity.
  - destruct n as [|p]; [discriminate|].
    apply DecimalPos.Unsigned.to_uint_nonnil.
Qed.

(** X2.  A width and a height typed as decimal numerals of at most 2^24
    (integers that a number holds exactly, and a length in single precision
    too) are the width and the height assigned to the style of the layer by
    [startAnimation], except the numeral 0, which gives the default
    (150 wide, 100 high). *)
Theorem start_applies_typed_size (w h : N) (win : Window) (s : World) :
  (w <= 2 ^ 24)%N -> (h <= 2 ^ 24)%N ->
  style_width (layer (startAnimation (sizedInputs w h) win s))
  = (if N.eqb w 0 then 150%N else w)
  /\ style_height (layer (startAnimation (sizedInputs w h) win s))
     = (if N.eqb h 0 then 100%N else h).
Proof.
  intros _ _. unfold startAnimation.
  destruct (moveLayer_size win (resetWorld (sizedInputs w h) s)) as [-> ->].
  cbn [resetWorld layer styleLayer style_width style_height].
  unfold configWidth, configHeight, sizedInputs, sizeInputs; cbn [widthInput heightInput].
  rewrite !parseInt_numeral. unfold intOr, lengthOr.
  split.
  - destruct (N.eqb_spec w 0) as [->|Hw]; [reflexivity|].
    destruct (Z.eqb_spec (Z.of_N w) 0); [lia|].
    destruct (Z.ltb_spec (Z.of_N w) 0); [lia|]. apply N2Z.id.
  - destruct (N.eqb_spec h 0) as [->|Hh]; [reflexivity|].
    destruct (Z.eqb_spec (Z.of_N h) 0); [lia|].
    destruct (Z.ltb_spec (Z.of_N h) 0); [lia|]. apply N2Z.id.
Qed.

Lemma start_applies_typed_size_witness :
  style_width (layer (startAnimation (sizedInputs 320 0) cornerWindow
                        (initWorld (plainLayer 0 0)))) = 320%N
  /\ style_height (layer (startAnimation (sizedInputs 320 0) cornerWindow
                            (initWorld (plainLayer 0 0)))) = 100%N.
Proof.
  apply (start_applies_typed_size 320 0 cornerWindow (initWorld (plainLayer 0 0)));
    vm_compute; discriminate.
Defined.

(** ** The scheduler *)

(** X3.  In every reachable state at most one animation frame callback is
    pending, it is the one [animationId] holds, and none is pending before
    the first click. *)
Theorem at_most_one_pending (l0 : Layer) (s : World) :
  Reachable l0 s ->
  (List.length (pending (frames s)) <= 1)%nat
  /\ (forall h, In h (pending (frames s)) -> animationId s = Some h)
  /\ (animationId s = None -> pending (frames s) = []).
Proof.
  intros H. destruct (Reachable_invariant l0 s H) as (_ & _ & Hq).
  rewrite Hq. destruct (animationId s) as [h|]; cbn.
  - split; [lia|]. split; [|discriminate].
    intros k [-> | []]. reflexivity.
  - split; [lia|]. split; [intros k []|reflexivity].
Qed.

Lemma at_most_one_pending_witness :
  (List.length (pending (frames
     (dispatch (dispatch (dispatch (initWorld (plainLayer 0 0))
                            (Click (sizeInputs "150" "100") cornerWindow))
                  (Click (sizeInputs "150" "100") cornerWindow))
        (Resize smallWindow)))) <= 1)%nat.
Proof.
  apply (at_most_one_pending (plainLayer 0 0)).
  apply Reachable_event, Reachable_event, Reachable_event, Reachable_init.
Defined.

Lemma idle_event (l0 : Layer) (e : Event) :
  isClick e = false -> dispatch (initWorld l0) e = initWorld l0.
Proof. destruct e; [discriminate | reflexivity | reflexivity]. Qed.

(** X4.  Before the first click on the start button, animation frames and
    resizes leave the whole state as the script set it up. *)
Theorem idle_before_first_click (l0 : Layer) (evs : list Event) :
  forallb (fun e => negb (isClick e)) evs = true ->
  fold_left dispatch evs (initWorld l0) = initWorld l0.
Proof.
  induction evs as [|e evs IH]; intros H; [reflexivity|].
  cbn in H. apply andb_prop in H as [He H].
  cbn [fold_left]. rewrite idle_event; [apply IH, H|].
  destruct (isClick e); [discriminate | reflexivity].
Qed.

Lemma idle_before_first_click_witness :
  fold_left dispatch
    [AnimationFrame cornerWindow; Resize smallWindow; AnimationFrame smallWindow]
    (initWorld (plainLayer 10 10))
  = initWorld (plainLayer 10 10).
Proof. apply idle_before_first_click. reflexivity. Defined.

(** X5.  After a click, [n] animation frames leave the layer, [dx] and the
    phase where [n + 1] steps of [moveLayer] from the reset state leave
    them: every frame runs exactly one step. *)
Theorem frames_are_steps
  (l0 : Layer) (s : World) (inp : Inputs) (win : Window) (n : nat) :
  Reachable l0 s ->
  motionOf (Nat.iter n (onFrame win) (startAnimation inp win s))
  = motionOf (run win (S n) (resetWorld inp s))
  /\ animationId (Nat.iter n (onFrame win) (startAnimation inp win s)) <> None
  /\ dy (Nat.iter n (onFrame win) (startAnimation inp win s)) = 0.
Proof.
  intros H.
  destruct (frames_after_click l0 s inp win H n) as (Hr & Hid & Hm & _).
  cbv zeta in Hr, Hid, Hm.
  destruct (Reachable_invariant l0 _ Hr) as (_ & Hdy & _).
  split; [exact Hm|]. split; [exact Hid | exact Hdy].
Qed.

Lemma frames_are_steps_witness :
  motionOf (Nat.iter 5 (onFrame cornerWindow)
              (startAnimation (sizeInputs "150" "100") cornerWindow
                 (initWorld (plainLayer 0 0))))
  = motionOf (run cornerWindow 6 cornerStart).
Proof.
  apply (frames_are_steps (plainLayer 0 0) (initWorld (plainLayer 0 0))).
  apply Reachable_init.
Defined.

(** ** What frames and resizes leave alone *)

Lemma moveLayer_appearance (win : Window) (s : World) :
  appearance (layer (moveLayer win s)) = appearance (layer s).
Proof. rewrite moveLayer_layer. reflexivity. Qed.

Lemma runCallback_keeps (win : Window) (s : World) (h : positive) :
  appearance (layer (runCallback win s h)) = appearance (layer s)
  /\ dy (runCallback win s h) = dy s
  /\ Z.abs (dx (runCallback win s h)) = Z.abs (dx s).
Proof.
  unfold runCallback. destruct (existsb _ _); [|repeat split].
  rewrite moveLayer_appearance, moveLayer_dy, moveLayer_dx.
  cbn [layer dy dx]. repeat split. destruct (hitsWall _ _); lia.
Qed.

Lemma onFrame_keeps (win : Window) (s : World) :
  appearance (layer (onFrame win s)) = appearance (layer s)
  /\ dy (onFrame win s) = dy s
  /\ Z.abs (dx (onFrame win s)) = Z.abs (dx s).
Proof.
  unfold onFrame. generalize (pending (frames s)) as hs. intros hs.
  revert s. induction hs as [|h hs IH]; intros s; [repeat split|].
  cbn [fold_left].
  destruct (IH (runCallback win s h)) as (-> & -> & ->).
  apply runCallback_keeps.
Qed.

Lemma onResize_keeps (win : Window) (s : World) :
  appearance (layer (onResize win s)) = appearance (layer s)
  /\ dy (onResize win s) = dy s
  /\ Z.abs (dx (onResize win s)) = Z.abs (dx s).
Proof.
  unfold onResize. destruct (animationId s); [|repeat split].
  rewrite moveLayer_appearance, moveLayer_dy, moveLayer_dx.
  cbn [layer dy dx]. repeat split. destruct (hitsWall _ _); lia.
Qed.

(** X6.  Animation frames and resizes never change the colour, the size,
    the opacity or the text of the layer, nor [dy], nor the speed [|dx|]:
    only a click does. *)
Theorem only_a_click_restyles (evs : list Event) :
  forall s,
    forallb (fun e => negb (isClick e)) evs = true ->
    appearance (layer (fold_left dispatch evs s)) = appearance (layer s)
    /\ dy (fold_left dispatch evs s) = dy s
    /\ Z.abs (dx (fold_left dispatch evs s)) = Z.abs (dx s).
Proof.
  induction evs as [|e evs IH]; intros s H; [repeat split|].
  cbn in H. apply andb_prop in H as [He H].
  cbn [fold_left]. destruct (IH (dispatch s e) H) as (-> & -> & ->).
  destruct e as [inp win | win | win]; [discriminate | |]; cbn [dispatch].
  - apply onFrame_keeps.
  - apply onResize_keeps.
Qed.

Lemma only_a_click_restyles_witness :
  appearance (layer (fold_left dispatch
                       [AnimationFrame cornerWindow; Resize smallWindow]
                       (run cornerWindow 3 cornerStart)))
  = appearance (layer (run cornerWindow 3 cornerStart)).
Proof.
  apply (only_a_click_restyles
           [AnimationFrame cornerWindow; Resize smallWindow]
           (run cornerWindow 3 cornerStart)).
  reflexivity.
Defined.

(** ** Between two bounces *)

(** X7.  Over steps none of which meets a wall, [x] advances by [dx] per step
    and [dx] keeps its value. *)
Theorem straight_between_bounces (win : Window) (n : nat) (s : World) :
  (forall k, (k < n)%nat -> hitsWall win (run win k s) = false) ->
  style_left (layer (run win n s)) = style_left (layer s) + Z.of_nat n * dx s
  /\ dx (run win n s) = dx s.
Proof.
  induction n as [|n IH]; intros H; [cbn; split; lia|].
  destruct IH as [Hx Hd]; [intros k Hk; apply H; lia|].
  rewrite run_S, moveLayer_left, moveLayer_dx, (H n) by lia.
  rewrite Hx, Hd. split; lia.
Qed.

Lemma straight_between_bounces_witness :
  style_left (layer (run cornerWindow 3 cornerStart))
  = style_left (layer cornerStart) + Z.of_nat 3 * dx cornerStart.
Proof.
  apply (straight_between_bounces cornerWindow 3 cornerStart).
  intros k Hk.
  destruct k as [|[|[|k]]]; [reflexivity | reflexivity | reflexivity | lia].
Defined.

Lemma settled_after_step (win : Window) (s : World) :
  dy s = 0 ->
  Z.of_N (style_height (layer s)) < innerHeight win ->
  let s1 := moveLayer win s in
  if goingDown s1
  then style_top (layer s1) + Z.of_N (style_height (layer s)) < innerHeight win
  else 0 < style_top (layer s1).
Proof.
  intros Hdy Hh. cbv zeta.
  rewrite moveLayer_goingDown, moveLayer_top.
  unfold hitsBottom, hitsTop.
  destruct (goingDown s); cbn [andb negb]; cmp_cases; cbn; lia.
Qed.

(** X8.  In a window higher than the layer, once a step has been made, [y]
    and the phase change only in steps that meet a wall. *)
Theorem still_without_bounce (win : Window) (s : World) (n : nat) :
  dy s = 0 ->
  Z.of_N (style_height (layer s)) < innerHeight win ->
  (forall k, (k < n)%nat ->
     hitsWall win (run win k (moveLayer win s)) = false) ->
  style_top (layer (run win n (moveLayer win s)))
  = style_top (layer (moveLayer win s))
  /\ goingDown (run win n (moveLayer win s)) = goingDown (moveLayer win s).
Proof.
  intros Hdy Hh.
  induction n as [|n IH]; intros H; [split; reflexivity|].
  destruct IH as [Hy Hg]; [intros k Hk; apply H; lia|].
  assert (Hdyn : forall m, dy (run win m s) = 0).
  { induction m as [|m IHm]; [exact Hdy | rewrite run_S, moveLayer_dy; exact IHm]. }
  assert (Hhn : forall m, style_height (layer (run win m s)) = style_height (layer s)).
  { induction m as [|m IHm]; [reflexivity|].
    rewrite run_S. destruct (moveLayer_size win (run win m s)) as [_ ->]. exact IHm. }
  rewrite <- !run_shift in *.
  pose proof (settled_after_step win (run win n s) (Hdyn n)) as Hs.
  rewrite Hhn in Hs. specialize (Hs Hh). cbv zeta in Hs. rewrite <- run_S in Hs.
  specialize (H n (Nat.lt_succ_diag_r n)). rewrite <- run_shift in H.
  rewrite (run_S win (S n)), moveLayer_top, moveLayer_goingDown.
  unfold hitsBottom, hitsTop. rewrite shiftedY_eq, H, Hdyn, Hhn.
  rewrite <- Hy, <- Hg.
  destruct (goingDown (run win (S n) s)); cbn [andb negb];
    cmp_cases; cbn; split; try reflexivity; lia.
Qed.

Lemma still_without_bounce_witness :
  style_top (layer (run cornerWindow 3 (moveLayer cornerWindow cornerStart)))
  = style_top (layer (moveLayer cornerWindow cornerStart)).
Proof.
  apply (still_without_bounce cornerWindow cornerStart 3).
  - reflexivity.
  - reflexivity.
  - intros k Hk.
    destruct k as [|[|[|k]]]; [reflexivity | reflexivity | reflexivity | lia].
Defined.

(** * Properties of the registration form *)

Lemma tooYoung_spec (today : DateFields) (birth : option DateFields) :
  tooYoung today birth = true
  <-> exists b, birth = Some b /\ dateLt today (addYears 14 b).
Proof.
  unfold tooYoung, dateLt, addYears. destruct birth as [b|]; cbn.
  - rewrite !orb_true_iff, !andb_true_iff, !Z.ltb_lt, !Z.eqb_eq.
    split.
    + intros H. exists b. split; [reflexivity|]. cbn. lia.
    + intros (b' & E & H). injection E as <-. cbn in H. lia.
  - split; [discriminate|]. intros (b & E & _). discriminate.
Qed.

(** X9.  The age error is shown exactly when the birth date is valid and
    today is before the fourteenth birthday (year, month and day compared in
    that order); an invalid or empty date never shows it. *)
Theorem age_error_iff (today : DateFields) (f : Formulaire) :
  ageError (validerFormulaire today f) = display_block
  <-> exists b, dateNaissance f = Some b /\ dateLt today (addYears 14 b).
Proof.
  rewrite <- tooYoung_spec. unfold validerFormulaire.
  destruct (tooYoung today (dateNaissance f));
    destruct (negb _); cbn; split; congruence.
Qed.

Lemma validerFormulaire_spec (today : DateFields) (f : Formulaire) :
  (passwordError (validerFormulaire today f) = display_block
   <-> motDePasse f <> confirmationMotDePasse f)
  /\ (alerted (validerFormulaire today f) = true
      <-> motDePasse f = confirmationMotDePasse f
          /\ forall b, dateNaissance f = Some b -> ~ dateLt today (addYears 14 b)).
Proof.
  pose proof (tooYoung_spec today (dateNaissance f)) as Hy.
  unfold validerFormulaire.
  destruct (String.eqb_spec (motDePasse f) (confirmationMotDePasse f)) as [E|E];
    destruct (tooYoung today (dateNaissance f)); cbn.
  - split; [split; congruence|]. split; [discriminate|].
    intros [_ H]. destruct Hy as [Hy _]. destruct (Hy eq_refl) as (b & Eb & Hb).
    exfalso. exact (H b Eb Hb).
  - split; [split; congruence|]. split; [|reflexivity].
    intros _. split; [exact E|]. intros b Eb Hb.
    destruct Hy as [_ Hy]. assert (false = true) by (apply Hy; eauto). discriminate.
  - split; [split; [intros _; exact E | reflexivity]|].
    split; [discriminate | intros [H _]; contradiction].
  - split; [split; [intros _; exact E | reflexivity]|].
    split; [discriminate | intros [H _]; contradiction].
Qed.

(** X10.  The password error is shown exactly when the two passwords differ,
    and the success alert exactly when they are equal and today is not
    before the fourteenth birthday of a valid birth date. *)
Theorem form_accepted_iff (today : DateFields) (f : Formulaire) :
  (passwordError (validerFormulaire today f) = display_block
   <-> motDePasse f <> confirmationMotDePasse f)
  /\ (alerted (validerFormulaire today f) = true
      <-> motDePasse f = confirmationMotDePasse f
          /\ forall b, dateNaissance f = Some b -> ~ dateLt today (addYears 14 b)).
Proof.
  destruct (validerFormulaire_spec today f) as [Hpw Hok].
  split; [exact Hpw | exact Hok].
Qed.

Lemma age_error_iff_witness :
  ageError (validerFormulaire (mkDate 2024 0 15)
              (mkFormulaire (Some (mkDate 2010 5 3)) "secret" "secret"))
  = display_block.
Proof.
  apply age_error_iff. exists (mkDate 2010 5 3).
  split; [reflexivity | unfold dateLt; cbn; lia].
Defined.

Lemma form_accepted_iff_witness :
  alerted (validerFormulaire (mkDate 2024 5 3)
             (mkFormulaire (Some (mkDate 2010 5 3)) "secret" "secret"))
  = true.
Proof.
  apply form_accepted_iff. split; [reflexivity|].
  intros b E. injection E as <-. unfold dateLt; cbn. lia.
Defined.

(** X11.  A form that is accepted today is accepted on any day that is not
    earlier. *)
Theorem acceptance_persists (today later : DateFields) (f : Formulaire) :
  alerted (validerFormulaire today f) = true ->
  ~ dateLt later today ->
  alerted (validerFormulaire later f) = true.
Proof.
  intros H Hl.
  destruct (validerFormulaire_spec today f) as [_ [Ha _]].
  destruct (validerFormulaire_spec later f) as [_ [_ Hb]].
  destruct (Ha H) as [E Hage]. apply Hb. split; [exact E|].
  intros b Eb Hlt. apply (Hage b Eb).
  unfold dateLt, addYears in *; cbn in *. lia.
Qed.

Lemma acceptance_persists_witness :
  alerted (validerFormulaire (mkDate 2025 0 1)
             (mkFormulaire (Some (mkDate 2010 5 3)) "secret" "secret")) = true.
Proof.
  apply (acceptance_persists (mkDate 2024 5 3) (mkDate 2025 0 1)).
  - reflexivity.
  - unfold dateLt; cbn. lia.
Defined.

(** * Properties of the text boxes *)

Lemma split_nonempty (sep : ascii) (s : string) : split sep s <> [].
Proof.
  destruct s as [|c s]; cbn; [discriminate|].
  destruct (Ascii.eqb c sep); [discriminate|].
  destruct (split sep s); discriminate.
Qed.

Lemma split_length (sep : ascii) (s : string) :
  List.length (split sep s) = S (countChar sep s).
Proof.
  induction s as [|c s IH]; [reflexivity|].
  cbn. destruct (Ascii.eqb c sep); cbn; [rewrite IH; reflexivity|].
  destruct (split sep s) as [|w ws] eqn:E; [cbn in IH; discriminate|].
  cbn in *. exact IH.
Qed.

Lemma replaceAll_removes (c : ascii) (s : string) :
  occurs c (replaceAll c EmptyString s) = false
  /\ (String.length (replaceAll c EmptyString s) + countChar c s
      = String.length s)%nat.
Proof.
  induction s as [|a s [IH1 IH2]]; [split; reflexivity|].
  cbn. destruct (Ascii.eqb a c) eqn:E; cbn.
  - split; [exact IH1 | lia].
  - rewrite E. cbn. split; [exact IH1 | lia].
Qed.

(** X12.  The copy and cut listeners report one more than the number of
    spaces of the text as its number of words (1 for the empty text), after
    the text with all its spaces removed and nothing else. *)
Theorem word_count_is_spaces_plus_one (p : TextPage) :
  let text := text_area_value p in
  let shown := replaceAll " " EmptyString text in
  b_box_textContent (onCopy p)
  = (shown ++ " Ce texte contient "
       ++ numeral (N.of_nat (S (countChar " " text))) ++ " mots")%string
  /\ c_box_textContent (onCut p) = b_box_textContent (onCopy p)
  /\ occurs " " shown = false
  /\ (String.length shown + countChar " " text = String.length text)%nat.
Proof.
  cbv zeta. unfold onCopy, onCut, wordReport; cbn.
  rewrite split_length.
  destruct (replaceAll_removes " " (text_area_value p)) as [H1 H2].
  repeat split; assumption.
Qed.

(** * Properties of the city colours *)

Lemma ownProperty_putOwn_same (o : Table) (k v : string) :
  ownProperty (putOwn o k v) k = Some v.
Proof.
  induction o as [|[k' v'] o IH]; cbn.
  - rewrite String.eqb_refl. reflexivity.
  - destruct (String.eqb k' k) eqn:E; cbn; rewrite E; [reflexivity | exact IH].
Qed.

Lemma ownProperty_putOwn_other (o : Table) (k k0 v : string) :
  k0 <> k -> ownProperty (putOwn o k v) k0 = ownProperty o k0.
Proof.
  intros Hk. induction o as [|[k' v'] o IH]; cbn.
  - destruct (String.eqb_spec k k0); [congruence | reflexivity].
  - destruct (String.eqb_spec k' k) as [->|E]; cbn.
    + destruct (String.eqb_spec k k0); [congruence | reflexivity].
    + destruct (String.eqb k' k0); [reflexivity | exact IH].
Qed.

Lemma In_insertBeforeLast (x : string) (l : list string) :
  In x (insertBeforeLast x l).
Proof.
  induction l as [|y l IH]; [left; reflexivity|].
  destruct l as [|z l]; [left; reflexivity|].
  right. exact IH.
Qed.

Lemma insertBeforeLast_keeps (x y : string) (l : list string) :
  In y l -> In y (insertBeforeLast x l).
Proof.
  induction l as [|z l IH]; [intros []|].
  destruct l as [|z' l]; intros H.
  - right. exact H.
  - destruct H as [->|H]; [left; reflexivity | right; apply IH, H].
Qed.

(** X13.  After a city is added under a name that begins and ends with an
    ASCII character and is not [autre] or [__proto__], with a colour, the select lists the name beside its earlier
    options and has it as its value, the colour is assigned to the box, the
    name field is cleared, and choosing the city again assigns the same
    colour to the box. *)
Theorem added_city_is_selected_and_found (p : CityPage) :
  let name := trim (new_city_value p) in
  let color := color_picker_value p in
  asciiEnds name = true ->
  name <> EmptyString -> color <> EmptyString ->
  name <> "autre"%string -> name <> "__proto__"%string ->
  select_value (onAddCity p) = name
  /\ In name (select_options (onAddCity p))
  /\ (forall v, In v (select_options p) -> In v (select_options (onAddCity p)))
  /\ color_box_backgroundColor (onAddCity p) = JString color
  /\ getProperty (cityColors (onAddCity p)) name = JString color
  /\ color_box_backgroundColor (onChange name (onAddCity p)) = JString color
  /\ new_city_value (onAddCity p) = EmptyString.
Proof.
  cbv zeta. intros _ Hn Hc Ha Hp.
  unfold onAddCity.
  destruct (String.eqb_spec (trim (new_city_value p)) EmptyString); [contradiction|].
  destruct (String.eqb_spec (color_picker_value p) EmptyString); [contradiction|].
  cbn [negb andb]. cbn [select_value select_options color_box_backgroundColor
                        cityColors new_city_value].
  assert (Hget : getProperty (setProperty (cityColors p) (trim (new_city_value p))
                                (color_picker_value p)) (trim (new_city_value p))
                 = JString (color_picker_value p)).
  { unfold getProperty, setProperty.
    destruct (String.eqb_spec (trim (new_city_value p)) "__proto__"); [contradiction|].
    rewrite ownProperty_putOwn_same. reflexivity. }
  split; [reflexivity|].
  split; [apply In_insertBeforeLast|].
  split; [intros v; apply insertBeforeLast_keeps|].
  split; [reflexivity|]. split; [exact Hget|].
  split; [|reflexivity].
  unfold onChange; cbn [cityColors color_box_backgroundColor].
  destruct (String.eqb_spec (trim (new_city_value p)) "autre"); [contradiction|].
  destruct (String.eqb_spec (trim (new_city_value p)) EmptyString); [contradiction|].
  cbn. exact Hget.
Qed.

Lemma added_city_is_selected_and_found_witness :
  color_box_backgroundColor (onChange "Tanger" (onAddCity sampleCityPage))
  = JString "#00ff00".
Proof.
  apply (added_city_is_selected_and_found sampleCityPage);
    [reflexivity | discriminate ..].
Defined.

(** X14.  A click on the add button, with a name typed that begins and ends
    with an ASCII character once its white space is removed, changes the
    colour recorded for no other name than that one. *)
Theorem other_cities_keep_colour (p : CityPage) (k : string) :
  asciiEnds (trim (new_city_value p)) = true ->
  k <> trim (new_city_value p) ->
  getProperty (cityColors (onAddCity p)) k = getProperty (cityColors p) k.
Proof.
  intros _ Hk. unfold onAddCity.
  destruct (negb _ && negb _); [|reflexivity].
  cbn [cityColors]. unfold getProperty, setProperty.
  destruct (String.eqb _ "__proto__"); [reflexivity|].
  rewrite ownProperty_putOwn_other by exact Hk. reflexivity.
Qed.

Lemma other_cities_keep_colour_witness :
  getProperty (cityColors (onAddCity sampleCityPage)) "Rabat"
  = getProperty (cityColors sampleCityPage) "Rabat".
Proof. apply other_cities_keep_colour; [reflexivity | discriminate]. Defined.

Lemma trim_blank (s : string) : isBlank s = true -> trim s = EmptyString.
Proof.
  unfold trim. induction s as [|c s IH]; [reflexivity|].
  cbn. destruct (isWhiteSpace c); [exact IH | discriminate].
Qed.

(** X15.  A name made of white space only is refused: the click shows the
    alert and changes nothing else. *)
Theorem blank_city_is_refused (p : CityPage) :
  isBlank (new_city_value p) = true ->
  onAddCity p
  = {| cityColors := cityColors p;
       select_options := select_options p;
       select_value := select_value p;
       color_box_backgroundColor := color_box_backgroundColor p;
       custom_field_display := custom_field_display p;
       new_city_value := new_city_value p;
       color_picker_value := color_picker_value p;
       alerts := alerts p ++ ["Veuillez saisir une ville et une couleur"%string] |}.
Proof.
  intros H. unfold onAddCity. rewrite (trim_blank _ H). reflexivity.
Qed.

Lemma blank_city_is_refused_witness :
  cityColors
    (onAddCity (mkCityPage cityColors0 [] EmptyString JUndefined EmptyString
                  "   " "#ff0000" []))
  = cityColors0.
Proof.
  rewrite (blank_city_is_refused
             (mkCityPage cityColors0 [] EmptyString JUndefined EmptyString
                "   " "#ff0000" [])); reflexivity.
Defined.



(** * Properties of the sorting routines *)

(** ** Arrays *)

Lemma update_length (a : list Z) (i : nat) (v : Z) :
  List.length (update a i v) = List.length a.
Proof.
  revert i. induction a as [|x a IH]; intros [|i]; cbn; try reflexivity.
  rewrite IH. reflexivity.
Qed.

Lemma nth_update_same (a : list Z) (i : nat) (v d : Z) :
  (i < List.length a)%nat -> nth i (update a i v) d = v.
Proof.
  revert i. induction a as [|x a IH]; intros [|i] H; cbn in *; try lia.
  apply IH. lia.
Qed.

Lemma nth_update_other (a : list Z) (i k : nat) (v d : Z) :
  k <> i -> nth k (update a i v) d = nth k a d.
Proof.
  revert i k. induction a as [|x a IH]; intros [|i] [|k] H; cbn; try reflexivity.
  - congruence.
  - apply IH. congruence.
Qed.

Lemma firstn_update (a : list Z) (i k : nat) (v : Z) :
  (k <= i)%nat -> firstn k (update a i v) = firstn k a.
Proof.
  revert i k. induction a as [|x a IH]; intros [|i] [|k] H; cbn; try reflexivity;
    try lia.
  rewrite IH by lia. reflexivity.
Qed.

Lemma aget_in_range (a : list Z) (i : nat) :
  (i < List.length a)%nat -> aget a i = Ok (nth i a 0).
Proof.
  intros H. unfold aget.
  rewrite (nth_error_nth' a 0 H). reflexivity.
Qed.

Lemma aset_in_range (a : list Z) (i : nat) (v : Z) :
  (i < List.length a)%nat -> aset a i v = Ok (update a i v).
Proof.
  intros H. unfold aset.
  destruct (Nat.ltb_spec i (List.length a)); [reflexivity | lia].
Qed.

Lemma aset_out_of_range (a : list Z) (i : nat) (v : Z) :
  (List.length a <= i)%nat -> aset a i v = Throw ArrayIndexOutOfBoundsException.
Proof.
  intros H. unfold aset.
  destruct (Nat.ltb_spec i (List.length a)); [lia | reflexivity].
Qed.

Lemma count_update (a : list Z) (i : nat) (v x : Z) :
  (i < List.length a)%nat ->
  (count_occ Z.eq_dec (update a i v) x + (if Z.eq_dec (nth i a 0%Z) x then 1 else 0)
   = count_occ Z.eq_dec a x + (if Z.eq_dec v x then 1 else 0))%nat.
Proof.
  revert i. induction a as [|y a IH]; intros [|i] H; cbn in *; try lia.
  - destruct (Z.eq_dec y x), (Z.eq_dec v x); lia.
  - specialize (IH i ltac:(lia)).
    destruct (Z.eq_dec y x); lia.
Qed.

(** Exchanging two elements, as both routines do it. *)
Lemma exchange_permutation (a : list Z) (i j : nat) :
  (i < List.length a)%nat -> (j < List.length a)%nat ->
  Permutation a (update (update a i (nth j a 0)) j (nth i a 0)).
Proof.
  intros Hi Hj. apply (Permutation_count_occ Z.eq_dec). intros x.
  pose proof (count_update a i (nth j a 0) x Hi) as H1.
  assert (Hj' : (j < List.length (update a i (nth j a 0%Z)))%nat)
    by (rewrite update_length; exact Hj).
  pose proof (count_update (update a i (nth j a 0)) j (nth i a 0) x Hj') as H2.
  assert (E : nth j (update a i (nth j a 0)) 0 = nth j a 0).
  { destruct (Nat.eq_dec j i) as [->|N];
      [apply nth_update_same; exact Hi | apply nth_update_other; exact N]. }
  rewrite E in H2.
  destruct (Z.eq_dec (nth i a 0) x), (Z.eq_dec (nth j a 0) x); lia.
Qed.

Lemma nth_exchange (a : list Z) (i j k : nat) :
  (i < List.length a)%nat -> (j < List.length a)%nat ->
  nth k (update (update a i (nth j a 0)) j (nth i a 0)) 0
  = if Nat.eqb k j then nth i a 0
    else if Nat.eqb k i then nth j a 0
    else nth k a 0.
Proof.
  intros Hi Hj.
  destruct (Nat.eqb_spec k j) as [->|Nj].
  - apply nth_update_same. rewrite update_length. exact Hj.
  - rewrite nth_update_other by exact Nj.
    destruct (Nat.eqb_spec k i) as [->|Ni].
    + apply nth_update_same. exact Hi.
    + apply nth_update_other. exact Ni.
Qed.

(** ** Loops *)

Lemma loop_invariant {St : Type} (Inv : nat -> St -> Prop)
  (body : nat -> St -> Result St) (count : nat) :
  forall (i : nat) (s : St),
    Inv i s ->
    (forall k t, (i <= k < i + count)%nat -> Inv k t ->
                 exists t', body k t = Ok t' /\ Inv (S k) t') ->
    exists s', loop count i body s = Ok s' /\ Inv (i + count)%nat s'.
Proof.
  induction count as [|c IH]; intros i s H Hstep.
  - exists s. rewrite Nat.add_0_r. split; [reflexivity | exact H].
  - destruct (Hstep i s ltac:(lia) H) as (t & Eb & Ht).
    destruct (IH (S i) t Ht) as (s' & El & Hs').
    { intros k u Hk Hu. apply Hstep; [lia | exact Hu]. }
    exists s'. cbn [loop]. rewrite Eb. cbn [bind].
    replace (i + S c)%nat with (S i + c)%nat by lia.
    split; assumption.
Qed.

Lemma loop_add {St : Type} (body : nat -> St -> Result St) (c1 c2 : nat) :
  forall (i : nat) (s : St),
    loop (c1 + c2) i body s
    = (s' <- loop c1 i body s ;; loop c2 (i + c1) body s').
Proof.
  induction c1 as [|c1 IH]; intros i s; cbn [loop Nat.add bind].
  - rewrite Nat.add_0_r. reflexivity.
  - destruct (body i s) as [t|e]; cbn [bind]; [|reflexivity].
    rewrite IH. replace (S i + c1)%nat with (i + S c1)%nat by lia. reflexivity.
Qed.

(** ** Order *)

Lemma sortedBelow_weaken (i k : nat) (t : list Z) :
  (k <= i)%nat -> sortedBelow i t -> sortedBelow k t.
Proof. intros H Hs a b Ha Hb. apply Hs; lia. Qed.

Lemma sortedBelow_Sorted (t : list Z) :
  sortedBelow (List.length t - 1) t -> StronglySorted Z.le t.
Proof.
  induction t as [|x t IH]; intros H; [constructor|].
  constructor.
  - apply IH. intros a b Ha Hb.
    apply (H (S a) (S b)); cbn in *; lia.
  - apply Forall_forall. intros y Hy.
    destruct (In_nth t y 0 Hy) as (k & Hk & <-).
    apply (H O (S k)); cbn; lia.
Qed.

(** ** [table_sort] *)

Lemma table_sort_compare_ok (i j : nat) (t : list Z) :
  (i < List.length t)%nat -> (j < List.length t)%nat ->
  table_sort_compare i j t
  = Ok (if nth i t 0 >? nth j t 0
        then update (update t i (nth j t 0)) j (nth i t 0)
        else t).
Proof.
  intros Hi Hj. unfold table_sort_compare.
  rewrite (aget_in_range t i Hi), (aget_in_range t j Hj). cbn [bind].
  destruct (nth i t 0 >? nth j t 0); [|reflexivity].
  rewrite (aset_in_range t i _ Hi). cbn [bind].
  apply aset_in_range. rewrite update_length. exact Hj.
Qed.

Lemma table_sort_pass_ok (t0 : list Z) (i : nat) (t : list Z) :
  (i < List.length t)%nat ->
  Permutation t0 t -> sortedBelow i t ->
  exists t', table_sort_pass i t = Ok t'
             /\ List.length t' = List.length t
             /\ Permutation t0 t'
             /\ sortedBelow (S i) t'.
Proof.
  intros Hi Hp Hs. unfold table_sort_pass, for_, table_length.
  set (n := List.length t) in *.
  replace (Z.to_nat (Z.of_nat n - Z.of_nat (i + 1))) with (n - (i + 1))%nat by lia.
  destruct (loop_invariant
              (fun j u => List.length u = n /\ Permutation t0 u /\ sortedBelow i u
                          /\ forall k, (i < k < j)%nat -> nth i u 0 <= nth k u 0)
              (table_sort_compare i) (n - (i + 1)) (i + 1) t)
    as (t' & El & Hl & Hp' & Hs' & Hmin).
  - split; [reflexivity|]. split; [exact Hp|]. split; [exact Hs|]. intros k Hk; lia.
  - intros j u Hj (Hl & Hpu & Hsu & Hm).
    rewrite table_sort_compare_ok by lia.
    eexists. split; [reflexivity|].
    destruct (Z.gtb_spec (nth i u 0) (nth j u 0)) as [Hgt|Hle].
    + split; [rewrite !update_length; exact Hl|].
      split; [eapply perm_trans; [exact Hpu | apply exchange_permutation; lia]|].
      split.
      * intros a b Ha Hb. rewrite !update_length in Hb.
        rewrite !nth_exchange by lia.
        destruct (Nat.eqb_spec a j); [lia|]. destruct (Nat.eqb_spec a i); [lia|].
        destruct (Nat.eqb_spec b j); [apply Hsu; lia|].
        destruct (Nat.eqb_spec b i); apply Hsu; lia.
      * intros k Hk. rewrite !nth_exchange by lia.
        destruct (Nat.eqb_spec i j); [lia|]. rewrite Nat.eqb_refl.
        destruct (Nat.eqb_spec k j); [lia|].
        destruct (Nat.eqb_spec k i); [lia|].
        specialize (Hm k ltac:(lia)). lia.
    + split; [exact Hl|]. split; [exact Hpu|]. split; [exact Hsu|].
      intros k Hk. destruct (Nat.eq_dec k j) as [->|N]; [lia | apply Hm; lia].
  - exists t'. split; [exact El|]. split; [exact Hl|]. split; [exact Hp'|].
    intros a b Ha Hb. rewrite Hl in Hb.
    destruct (Nat.eq_dec a i) as [->|N]; [apply Hmin; lia | apply Hs'; lia].
Qed.

(** X17.  [table_sort] throws no exception on any array and returns the
    elements of its argument in ascending order. *)
Theorem table_sort_sorts (table : list Z) :
  exists sorted,
    table_sort table = Ok sorted
    /\ Sorted Z.le sorted
    /\ Permutation table sorted.
Proof.
  unfold table_sort, for_, table_length.
  set (n := List.length table).
  replace (Z.to_nat (Z.of_nat n - 1 - Z.of_nat 0)) with (n - 1)%nat by lia.
  destruct (loop_invariant
              (fun i u => List.length u = n /\ Permutation table u /\ sortedBelow i u)
              table_sort_pass (n - 1) 0 table)
    as (t' & El & Hl & Hp & Hs).
  - split; [reflexivity|]. split; [apply Permutation_refl|]. intros a b Ha; lia.
  - intros i u Hi (Hl & Hp & Hs).
    destruct (table_sort_pass_ok table i u) as (u' & E & Hl' & Hp' & Hs');
      try assumption; [lia|].
    exists u'. split; [exact E|]. split; [lia|]. split; assumption.
  - exists t'. split; [exact El|]. split; [|exact Hp].
    apply StronglySorted_Sorted, sortedBelow_Sorted.
    rewrite Hl. exact Hs.
Qed.

(** ** [table_sort2] *)

Lemma table_sort2_scan_ok (t : list Z) (j m : nat) :
  (j < List.length t)%nat -> (m < List.length t)%nat ->
  table_sort2_scan t j m = Ok (if nth m t 0 >? nth j t 0 then j else m).
Proof.
  intros Hj Hm. unfold table_sort2_scan.
  rewrite (aget_in_range t m Hm), (aget_in_range t j Hj). cbn [bind].
  destruct (_ >? _); reflexivity.
Qed.

Lemma table_sort2_min (t : list Z) (i : nat) :
  (i < List.length t)%nat ->
  exists m,
    for_ i (table_length t) (table_sort2_scan t) i = Ok m
    /\ (i <= m < List.length t)%nat
    /\ forall k, (i <= k < List.length t)%nat -> nth m t 0 <= nth k t 0.
Proof.
  intros Hi. unfold for_, table_length.
  set (n := List.length t) in *.
  replace (Z.to_nat (Z.of_nat n - Z.of_nat i)) with (n - i)%nat by lia.
  destruct (loop_invariant
              (fun j m => (i <= m < n)%nat
                          /\ forall k, (i <= k < j)%nat -> nth m t 0 <= nth k t 0)
              (table_sort2_scan t) (n - i) i i)
    as (m & El & Hm & Hmin).
  - split; [lia | intros k Hk; lia].
  - intros j m Hj (Hm & Hmin).
    rewrite table_sort2_scan_ok by (fold n; lia).
    eexists. split; [reflexivity|].
    destruct (Z.gtb_spec (nth m t 0) (nth j t 0)) as [Hgt|Hle].
    + split; [lia|]. intros k Hk.
      destruct (Nat.eq_dec k j) as [->|N]; [lia|].
      specialize (Hmin k ltac:(lia)). lia.
    + split; [lia|]. intros k Hk.
      destruct (Nat.eq_dec k j) as [->|N]; [lia | apply Hmin; lia].
  - exists m. split; [exact El|]. split; [exact Hm|].
    intros k Hk. apply Hmin. lia.
Qed.

Lemma firstn_snoc (l : list Z) (i : nat) :
  (i < List.length l)%nat -> firstn (S i) l = firstn i l ++ [nth i l 0].
Proof.
  revert i. induction l as [|x l IH]; intros [|i] H; cbn in *; try lia.
  - reflexivity.
  - rewrite IH by lia. reflexivity.
Qed.

Lemma firstn_update_snoc (a : list Z) (k : nat) (v : Z) :
  (k < List.length a)%nat ->
  firstn (S k) (update a k v) = firstn k a ++ [v].
Proof.
  intros H. rewrite firstn_snoc by (rewrite update_length; exact H).
  rewrite firstn_update by lia. rewrite nth_update_same by exact H. reflexivity.
Qed.

(** The round in terms of the table it leaves and the element it files. *)
Lemma table_sort2_round_spec (t0 : list Z) (i : nat) (st : Locals) :
  sort2_invariant t0 i st -> (i < List.length t0)%nat ->
  exists t2,
    List.length t2 = List.length t0
    /\ Permutation t0 t2
    /\ sortedBelow (S i) t2
    /\ firstn i t2 = firstn i (l_table st)
    /\ table_sort2_round i st
       = if nth i t2 0 <? 0 then
           negative <- aset (l_negative st) (l_neg_index st) (nth i t2 0) ;;
           Ok {| l_table := t2;
                 l_negative := negative;
                 l_neg_index := l_neg_index st + 1;
                 l_positive := l_positive st;
                 l_pos_index := l_pos_index st |}
         else
           positive <- aset (l_positive st) (l_pos_index st) (nth i t2 0) ;;
           Ok {| l_table := t2;
                 l_negative := l_negative st;
                 l_neg_index := l_neg_index st;
                 l_positive := positive;
                 l_pos_index := l_pos_index st + 1 |}.
Proof.
  intros (Hl & Hp & Hs & _) Hi.
  set (t := l_table st) in *.
  assert (Hit : (i < List.length t)%nat) by lia.
  destruct (table_sort2_min t i Hit) as (m & Em & Hm & Hmin).
  set (t2 := update (update t m (nth i t 0)) i (nth m t 0)).
  assert (Hl2 : List.length t2 = List.length t)
    by (unfold t2; rewrite !update_length; reflexivity).
  exists t2.
  split; [lia|].
  split; [eapply perm_trans; [exact Hp | apply exchange_permutation; lia]|].
  split.
  { intros a b Ha Hb. rewrite Hl2 in Hb. unfold t2.
    rewrite !nth_exchange by lia.
    destruct (Nat.eqb_spec a i) as [->|Na].
    - destruct (Nat.eqb_spec b i); [lia|].
      destruct (Nat.eqb_spec b m); apply Hmin; lia.
    - destruct (Nat.eqb_spec a m); [lia|].
      destruct (Nat.eqb_spec b i); [apply Hs; lia|].
      destruct (Nat.eqb_spec b m); apply Hs; lia. }
  split.
  { unfold t2. rewrite !firstn_update by lia. reflexivity. }
  unfold table_sort2_round. fold t. rewrite Em. cbn [bind].
  rewrite (aget_in_range t m) by lia. cbn [bind].
  rewrite (aget_in_range t i Hit). cbn [bind].
  rewrite (aset_in_range t m) by lia. cbn [bind].
  rewrite aset_in_range by (rewrite update_length; lia). cbn [bind].
  fold t2. rewrite (aget_in_range t2 i) by lia. cbn [bind].
  destruct (nth i t2 0 <? 0); reflexivity.
Qed.

Lemma table_sort2_round_ok (t0 : list Z) (i : nat) (st : Locals) :
  sort2_invariant t0 i st -> (i < List.length t0)%nat ->
  (forall t2,
      Permutation t0 t2 -> sortedBelow (S i) t2 ->
      firstn i t2 = firstn i (l_table st) ->
      if nth i t2 0 <? 0
      then (l_neg_index st < List.length t0 - 1)%nat
      else (l_pos_index st < List.length t0 - 1)%nat) ->
  exists st', table_sort2_round i st = Ok st' /\ sort2_invariant t0 (S i) st'.
Proof.
  intros Hinv Hi Hroom.
  destruct (table_sort2_round_spec t0 i st Hinv Hi) as (t2 & Hl2 & Hp2 & Hs2 & Hf & E).
  specialize (Hroom t2 Hp2 Hs2 Hf).
  destruct Hinv as (Hl & Hp & Hs & Hln & Hlp & Hn & Hpn & Hsum & Hneg & Hpos).
  assert (Hsplit : firstn (S i) t2 = firstn i (l_table st) ++ [nth i t2 0]).
  { rewrite firstn_snoc by lia. rewrite Hf. reflexivity. }
  rewrite E. destruct (nth i t2 0 <? 0) eqn:Ex.
  - rewrite aset_in_range by lia. cbn [bind]. eexists. split; [reflexivity|].
    unfold sort2_invariant; cbn [l_table l_negative l_neg_index l_positive l_pos_index].
    rewrite update_length, Hsplit, !filter_app. cbn [filter].
    change (isNegative (nth i t2 0)) with (nth i t2 0 <? 0).
    change (isNotNegative (nth i t2 0)) with (negb (nth i t2 0 <? 0)).
    rewrite Ex. cbn [negb].
    rewrite app_nil_r, <- Hneg, <- Hpos.
    replace (l_neg_index st + 1)%nat with (S (l_neg_index st)) by lia.
    rewrite firstn_update_snoc by lia.
    repeat split; try assumption; lia.
  - rewrite aset_in_range by lia. cbn [bind]. eexists. split; [reflexivity|].
    unfold sort2_invariant; cbn [l_table l_negative l_neg_index l_positive l_pos_index].
    rewrite update_length, Hsplit, !filter_app. cbn [filter].
    change (isNegative (nth i t2 0)) with (nth i t2 0 <? 0).
    change (isNotNegative (nth i t2 0)) with (negb (nth i t2 0 <? 0)).
    rewrite Ex. cbn [negb].
    rewrite app_nil_r, <- Hneg, <- Hpos.
    replace (l_pos_index st + 1)%nat with (S (l_pos_index st)) by lia.
    rewrite firstn_update_snoc by lia.
    repeat split; try assumption; lia.
Qed.

Lemma table_sort2_round_throws (t0 : list Z) (i : nat) (st : Locals) :
  sort2_invariant t0 i st -> (i < List.length t0)%nat ->
  (forall t2,
      Permutation t0 t2 -> sortedBelow (S i) t2 ->
      firstn i t2 = firstn i (l_table st) ->
      if nth i t2 0 <? 0
      then (List.length t0 - 1 <= l_neg_index st)%nat
      else (List.length t0 - 1 <= l_pos_index st)%nat) ->
  table_sort2_round i st = Throw ArrayIndexOutOfBoundsException.
Proof.
  intros Hinv Hi Hfull.
  destruct (table_sort2_round_spec t0 i st Hinv Hi) as (t2 & Hl2 & Hp2 & Hs2 & Hf & E).
  specialize (Hfull t2 Hp2 Hs2 Hf).
  destruct Hinv as (Hl & Hp & Hs & Hln & Hlp & _).
  rewrite E. destruct (nth i t2 0 <? 0);
    rewrite aset_out_of_range by lia; reflexivity.
Qed.

Lemma sort2_invariant_init (t0 : list Z) :
  sort2_invariant t0 0
    {| l_table := t0;
       l_negative := repeat 0 (List.length t0 - 1);
       l_neg_index := 0;
       l_positive := repeat 0 (List.length t0 - 1);
       l_pos_index := 0 |}.
Proof.
  unfold sort2_invariant; cbn. rewrite !repeat_length.
  repeat split; try lia; try apply Permutation_refl.
  intros a b Ha. lia.
Qed.

(** All rounds but the last find room in both arrays. *)
Lemma table_sort2_rounds_before_last (t0 : list Z) :
  exists st,
    loop (List.length t0 - 1) 0 table_sort2_round
      {| l_table := t0;
         l_negative := repeat 0 (List.length t0 - 1);
         l_neg_index := 0;
         l_positive := repeat 0 (List.length t0 - 1);
         l_pos_index := 0 |} = Ok st
    /\ sort2_invariant t0 (List.length t0 - 1) st.
Proof.
  destruct (loop_invariant (sort2_invariant t0) table_sort2_round
              (List.length t0 - 1) 0 _ (sort2_invariant_init t0))
    as (st & E & H).
  - intros k st Hk Hinv. apply table_sort2_round_ok; [exact Hinv | lia |].
    intros t2 _ _ _.
    destruct Hinv as (_ & _ & _ & _ & _ & _ & _ & Hsum & _).
    destruct (_ <? _); lia.
  - exists st. split; assumption.
Qed.

Lemma filter_nil_forall (f : Z -> bool) (l : list Z) :
  filter f l = [] -> forall y, In y l -> f y = false.
Proof.
  induction l as [|x l IH]; intros H y Hy; [destruct Hy|].
  cbn in H. destruct (f x) eqn:E; [discriminate|].
  destruct Hy as [<-|Hy]; [exact E | apply IH; assumption].
Qed.

Lemma forall_filter_nil (f : Z -> bool) (l : list Z) :
  (forall y, In y l -> f y = false) -> filter f l = [].
Proof.
  induction l as [|x l IH]; intros H; [reflexivity|].
  cbn. rewrite (H x (or_introl eq_refl)). apply IH.
  intros y Hy. apply H. right. exact Hy.
Qed.

Lemma forall_filter_all (f : Z -> bool) (l : list Z) :
  (forall y, In y l -> f y = true) -> filter f l = l.
Proof.
  induction l as [|x l IH]; intros H; [reflexivity|].
  cbn. rewrite (H x (or_introl eq_refl)). f_equal. apply IH.
  intros y Hy. apply H. right. exact Hy.
Qed.

Lemma last_cell (t : list Z) (y : Z) :
  In y t ->
  In y (firstn (List.length t - 1) t) \/ y = nth (List.length t - 1) t 0.
Proof.
  intros Hy.
  destruct t as [|x t]; [destruct Hy|].
  assert (E : firstn (S (List.length (x :: t) - 1)) (x :: t) = x :: t).
  { replace (S (List.length (x :: t) - 1)) with (List.length (x :: t)) by (cbn; lia).
    apply firstn_all. }
  rewrite firstn_snoc in E by (cbn; lia).
  rewrite <- E in Hy. apply in_app_or in Hy.
  destruct Hy as [Hy | [<- | []]]; [left; exact Hy | right; reflexivity].
Qed.

Lemma firstn_In (l : list Z) (k : nat) (y : Z) : In y (firstn k l) -> In y l.
Proof.
  intros H. rewrite <- (firstn_skipn k l). apply in_or_app. left. exact H.
Qed.

Lemma firstn_index (a : list Z) (k : nat) :
  (k <= List.length a)%nat -> firstn k a = [] -> k = O.
Proof.
  intros Hk E. apply (f_equal (@List.length Z)) in E.
  rewrite firstn_length_le in E by exact Hk. exact E.
Qed.

(** The last round when both kinds of element are present. *)
Lemma table_sort2_last_round_ok (t0 : list Z) (st : Locals) :
  sort2_invariant t0 (List.length t0 - 1) st ->
  (exists x, In x t0 /\ x < 0) -> (exists y, In y t0 /\ 0 <= y) ->
  exists st',
    table_sort2_round (List.length t0 - 1) st = Ok st'
    /\ sort2_invariant t0 (List.length t0) st'.
Proof.
  intros Hinv (x & Hx & Hxn) (y & Hy & Hyp).
  assert (Hn : (0 < List.length t0)%nat) by (destruct t0; [destruct Hx | cbn; lia]).
  cut (exists st', table_sort2_round (List.length t0 - 1) st = Ok st'
                   /\ sort2_invariant t0 (S (List.length t0 - 1)) st').
  { replace (S (List.length t0 - 1)) with (List.length t0) by lia. exact (fun H => H). }
  apply table_sort2_round_ok; [exact Hinv | lia |].
  intros t2 Hp2 _ Hf.
  assert (Hl2 : List.length t2 = List.length t0)
    by (symmetry; apply Permutation_length; exact Hp2).
  destruct Hinv as (Hl & Hp & Hs & Hln & Hlp & Hni & Hpi & Hsum & Hneg & Hpos).
  rewrite <- Hf in Hneg, Hpos. rewrite <- Hl2 in Hneg, Hpos.
  destruct (Z.ltb_spec (nth (List.length t0 - 1) t2 0) 0) as [Hlast|Hlast].
  - destruct (Nat.lt_ge_cases (l_neg_index st) (List.length t0 - 1)) as [|Hfull];
      [assumption | exfalso].
    assert (E : l_pos_index st = O) by lia. rewrite E in Hpos. cbn in Hpos.
    symmetry in Hpos.
    pose proof (Permutation_in y Hp2 Hy) as Hy2.
    destruct (last_cell t2 y Hy2) as [Hin | ->].
    + pose proof (filter_nil_forall _ _ Hpos y Hin) as F.
      unfold isNotNegative in F. destruct (Z.ltb_spec y 0); [lia | discriminate].
    + rewrite Hl2 in Hyp. lia.
  - destruct (Nat.lt_ge_cases (l_pos_index st) (List.length t0 - 1)) as [|Hfull];
      [assumption | exfalso].
    assert (E : l_neg_index st = O) by lia. rewrite E in Hneg. cbn in Hneg.
    symmetry in Hneg.
    pose proof (Permutation_in x Hp2 Hx) as Hx2.
    destruct (last_cell t2 x Hx2) as [Hin | ->].
    + pose proof (filter_nil_forall _ _ Hneg x Hin) as F.
      unfold isNegative in F. destruct (Z.ltb_spec x 0); [discriminate | lia].
    + rewrite Hl2 in Hxn. lia.
Qed.

Lemma table_sort2_loop_unfold (t0 : list Z) :
  t0 <> [] ->
  table_sort2_loop t0
  = (st <- loop (List.length t0 - 1) 0 table_sort2_round
             {| l_table := t0;
                l_negative := repeat 0 (List.length t0 - 1);
                l_neg_index := 0;
                l_positive := repeat 0 (List.length t0 - 1);
                l_pos_index := 0 |} ;;
     table_sort2_round (List.length t0 - 1) st).
Proof.
  intros Hne.
  assert (Hn : (0 < List.length t0)%nat) by (destruct t0; [congruence | cbn; lia]).
  unfold table_sort2_loop, newArray, for_, table_length.
  destruct (Z.ltb_spec (Z.of_nat (List.length t0) - 1) 0); [lia|].
  cbn [bind].
  replace (Z.to_nat (Z.of_nat (List.length t0) - 1)) with (List.length t0 - 1)%nat by lia.
  replace (Z.to_nat (Z.of_nat (List.length t0) - Z.of_nat 0))
    with ((List.length t0 - 1) + 1)%nat by lia.
  rewrite loop_add. cbn [Nat.add].
  destruct (loop _ _ _ _) as [st|e]; cbn [bind loop]; [|reflexivity].
  destruct (table_sort2_round _ st); reflexivity.
Qed.

Lemma sorted_split (l : list Z) :
  StronglySorted Z.le l ->
  filter isNegative l ++ filter isNotNegative l = l.
Proof.
  induction 1 as [|x l Hs IH Hall]; [reflexivity|].
  cbn. unfold isNegative at 1, isNotNegative at 1.
  destruct (Z.ltb_spec x 0) as [Hx|Hx]; cbn [negb].
  - cbn. rewrite IH. reflexivity.
  - rewrite Forall_forall in Hall.
    rewrite (forall_filter_nil isNegative l), (forall_filter_all isNotNegative l).
    + reflexivity.
    + intros y Hy. specialize (Hall y Hy). unfold isNotNegative.
      destruct (Z.ltb_spec y 0); [lia | reflexivity].
    + intros y Hy. specialize (Hall y Hy). unfold isNegative.
      destruct (Z.ltb_spec y 0); [lia | reflexivity].
Qed.

(** X18.  On an array that holds a negative and a non-negative element,
    [table_sort2] returns the negative elements in ascending order and the
    others in ascending order (together, the sorted array), and leaves the
    array it was given sorted. *)
Theorem table_sort2_splits (table : list Z) :
  (exists x, In x table /\ x < 0) ->
  (exists y, In y table /\ 0 <= y) ->
  exists sorted,
    Sorted Z.le sorted
    /\ Permutation table sorted
    /\ table_sort2 table
       = Ok (filter isNegative sorted, filter isNotNegative sorted)
    /\ filter isNegative sorted ++ filter isNotNegative sorted = sorted
    /\ exists st, table_sort2_loop table = Ok st /\ l_table st = sorted.
Proof.
  intros Hneg Hpos.
  assert (Hne : table <> []) by (destruct Hneg as (x & Hx & _); destruct table; [destruct Hx | discriminate]).
  destruct (table_sort2_rounds_before_last table) as (st & E1 & H1).
  destruct (table_sort2_last_round_ok table st H1 Hneg Hpos) as (st' & E2 & H2).
  assert (Eloop : table_sort2_loop table = Ok st').
  { rewrite table_sort2_loop_unfold by exact Hne. rewrite E1. cbn [bind]. exact E2. }
  destruct H2 as (Hl & Hp & Hs & Hln & Hlp & Hni & Hpi & Hsum & Hn & Hpo).
  assert (Hss : StronglySorted Z.le (l_table st')).
  { apply sortedBelow_Sorted. eapply sortedBelow_weaken; [|exact Hs]. lia. }
  exists (l_table st').
  split; [apply StronglySorted_Sorted, Hss|].
  split; [exact Hp|].
  split.
  { unfold table_sort2. rewrite Eloop. cbn [bind]. unfold copyOf.
    replace (l_neg_index st' - List.length (l_negative st'))%nat with O by lia.
    replace (l_pos_index st' - List.length (l_positive st'))%nat with O by lia.
    cbn [repeat]. rewrite !app_nil_r, Hn, Hpo.
    rewrite <- Hl, firstn_all. reflexivity. }
  split; [apply sorted_split, Hss|].
  exists st'. split; [exact Eloop | reflexivity].
Qed.

Lemma table_sort2_splits_witness :
  exists sorted,
    Sorted Z.le sorted
    /\ Permutation [3; -1; 4; -5; 2] sorted
    /\ table_sort2 [3; -1; 4; -5; 2]
       = Ok (filter isNegative sorted, filter isNotNegative sorted)
    /\ filter isNegative sorted ++ filter isNotNegative sorted = sorted
    /\ exists st, table_sort2_loop [3; -1; 4; -5; 2] = Ok st /\ l_table st = sorted.
Proof.
  apply table_sort2_splits.
  - exists (-1). split; [cbn; tauto | lia].
  - exists 3. split; [cbn; tauto | lia].
Defined.

(** X19.  [table_sort2] throws [NegativeArraySizeException] on the empty
    array and [ArrayIndexOutOfBoundsException] on an array whose elements
    are all negative or all non-negative, arrays of one element included. *)
Theorem table_sort2_throws (table : list Z) :
  (forall x, In x table -> x < 0) \/ (forall x, In x table -> 0 <= x) ->
  table_sort2 table
  = Throw match table with
          | [] => NegativeArraySizeException
          | _ :: _ => ArrayIndexOutOfBoundsException
          end.
Proof.
  intros Hsign.
  destruct table as [|x0 rest] eqn:Et; [reflexivity|]. rewrite <- Et in *.
  assert (Hne : table <> []) by (rewrite Et; discriminate).
  assert (Hn : (0 < List.length table)%nat) by (rewrite Et; cbn; lia).
  destruct (table_sort2_rounds_before_last table) as (st & E1 & H1).
  unfold table_sort2. rewrite table_sort2_loop_unfold by exact Hne.
  rewrite E1. cbn [bind].
  rewrite (table_sort2_round_throws table (List.length table - 1) st H1);
    [reflexivity | lia |].
  intros t2 Hp2 _ Hf.
  assert (Hl2 : List.length t2 = List.length table)
    by (symmetry; apply Permutation_length; exact Hp2).
  assert (Hlast : In (nth (List.length table - 1) t2 0) table).
  { apply (Permutation_in _ (Permutation_sym Hp2)). apply nth_In. lia. }
  destruct H1 as (Hl & Hp & Hs & Hln & Hlp & Hni & Hpi & Hsum & Hneg & Hpos).
  destruct Hsign as [Hall | Hall].
  - specialize (Hall _ Hlast) as Hx.
    destruct (Z.ltb_spec (nth (List.length table - 1) t2 0) 0); [|lia].
    rewrite (forall_filter_nil isNotNegative) in Hpos.
    + apply firstn_index in Hpos; lia.
    + intros y Hy. apply firstn_In in Hy.
      apply (Permutation_in _ (Permutation_sym Hp)) in Hy. specialize (Hall y Hy).
      unfold isNotNegative. destruct (Z.ltb_spec y 0); [reflexivity | lia].
  - specialize (Hall _ Hlast) as Hx.
    destruct (Z.ltb_spec (nth (List.length table - 1) t2 0) 0); [lia|].
    rewrite (forall_filter_nil isNegative) in Hneg.
    + apply firstn_index in Hneg; lia.
    + intros y Hy. apply firstn_In in Hy.
      apply (Permutation_in _ (Permutation_sym Hp)) in Hy. specialize (Hall y Hy).
      unfold isNegative. destruct (Z.ltb_spec y 0); [lia | reflexivity].
Qed.

Lemma table_sort2_throws_witness :
  table_sort2 [-3; -1; -2] = Throw ArrayIndexOutOfBoundsException.
Proof.
  apply (table_sort2_throws [-3; -1; -2]).
  left. intros x [<- | [<- | [<- | []]]]; lia.
Defined.

(** * Properties of the pop-up window *)

Lemma closePopup_length (h : nat) (ws : list Popup) :
  List.length (closePopup h ws) = List.length ws.
Proof.
  revert h. induction ws as [|w ws IH]; intros [|h]; cbn; try reflexivity.
  rewrite IH. reflexivity.
Qed.

Lemma closePopup_same (h : nat) (ws : list Popup) :
  match nth_error (closePopup h ws) h with
  | Some w => negb (closed w)
  | None => false
  end = false.
Proof.
  revert h. induction ws as [|w ws IH]; intros [|h]; cbn; try reflexivity.
  apply IH.
Qed.

Lemma closePopup_other (h k : nat) (ws : list Popup) :
  k <> h -> nth_error (closePopup h ws) k = nth_error ws k.
Proof.
  revert h k. induction ws as [|w ws IH]; intros [|h] [|k] H; cbn;
    try reflexivity; [congruence|].
  apply IH. congruence.
Qed.

Lemma isOpen_closePopup (st : Opener) (h k : nat) :
  isOpen {| openedWindow := openedWindow st;
            popups := closePopup h (popups st);
            opener_alerts := opener_alerts st |} k
  = if Nat.eqb k h then false else isOpen st k.
Proof.
  unfold isOpen; cbn [popups].
  destruct (Nat.eqb_spec k h) as [->|N].
  - apply closePopup_same.
  - rewrite closePopup_other by exact N. reflexivity.
Qed.

Lemma soleWindow_step (st : Opener) (e : OpenerEvent) :
  soleWindow st -> soleWindow (openerStep st e).
Proof.
  intros Hinv. destruct e as [url width height blocked | confirmed | h0];
    cbn [openerStep].
  - unfold openWindow. destruct (String.eqb url EmptyString); [exact Hinv|].
    assert (Hclosed :
      forall k,
        match nth_error
                (if openedAndNotClosed st then
                   match openedWindow st with
                   | Some h => closePopup h (popups st)
                   | None => popups st
                   end
                 else popups st) k with
        | Some w => negb (closed w)
        | None => false
        end = false).
    { intros k. unfold openedAndNotClosed.
      destruct (openedWindow st) as [h|] eqn:Eo.
      - destruct (isOpen st h) eqn:Eh.
        + destruct (Nat.eq_dec k h) as [->|N]; [apply closePopup_same|].
          rewrite closePopup_other by exact N.
          specialize (Hinv k). unfold isOpen in Hinv.
          destruct (match nth_error (popups st) k with Some w => negb (closed w) | None => false end) eqn:Ek;
            [|reflexivity].
          specialize (Hinv eq_refl). congruence.
        + specialize (Hinv k). unfold isOpen in Hinv, Eh.
          destruct (match nth_error (popups st) k with Some w => negb (closed w) | None => false end) eqn:Ek;
            [|reflexivity].
          specialize (Hinv eq_refl). assert (k = h) by congruence. subst k. congruence.
      - specialize (Hinv k). unfold isOpen in Hinv.
        destruct (match nth_error (popups st) k with Some w => negb (closed w) | None => false end) eqn:Ek;
          [|reflexivity].
        specialize (Hinv eq_refl). congruence. }
    destruct blocked.
    + intros k Hk. unfold isOpen in Hk; cbn [popups] in Hk.
      rewrite Hclosed in Hk. discriminate.
    + intros k Hk. unfold isOpen in Hk; cbn [popups openedWindow] in *.
      set (ws := if openedAndNotClosed st then _ else _) in *.
      destruct (Nat.lt_ge_cases k (List.length ws)) as [Hlt|Hge].
      * rewrite nth_error_app1 in Hk by exact Hlt.
        rewrite Hclosed in Hk. discriminate.
      * destruct (Nat.eq_dec k (List.length ws)) as [->|N]; [reflexivity|].
        rewrite nth_error_app2 in Hk by exact Hge.
        destruct (k - List.length ws)%nat as [|[|m]] eqn:Em; cbn in Hk;
          [lia | discriminate | discriminate].
  - unfold closeWindow. destruct (openedAndNotClosed st) eqn:Eo; [|exact Hinv].
    destruct confirmed; [|exact Hinv].
    unfold openedAndNotClosed in Eo.
    destruct (openedWindow st) as [h|] eqn:Eh; [|discriminate].
    intros k Hk. cbn [openedWindow].
    pose proof (isOpen_closePopup st h k) as E. rewrite Eh in E.
    rewrite E in Hk. destruct (Nat.eqb k h); [discriminate|].
    rewrite <- Eh. apply Hinv, Hk.
  - intros k Hk. cbn [openedWindow].
    rewrite isOpen_closePopup in Hk. destruct (Nat.eqb k h0); [discriminate|].
    apply Hinv, Hk.
Qed.

Lemma soleWindow_run (evs : list OpenerEvent) :
  forall st, soleWindow st -> soleWindow (fold_left openerStep evs st).
Proof.
  induction evs as [|e evs IH]; intros st Hst; [exact Hst|].
  cbn [fold_left]. apply IH, soleWindow_step, Hst.
Qed.

(** X20.  After any clicks on the two buttons and any windows closed by the
    user, at most one window opened by the script is open, and it is the
    one [openedWindow] holds. *)
Theorem at_most_one_popup (evs : list OpenerEvent) (h1 h2 : nat) :
  let st := fold_left openerStep evs opener0 in
  isOpen st h1 = true -> isOpen st h2 = true ->
  h1 = h2 /\ openedWindow st = Some h1.
Proof.
  cbv zeta. intros H1 H2.
  assert (Hinv : soleWindow (fold_left openerStep evs opener0)).
  { apply soleWindow_run. intros h Hh. unfold isOpen in Hh.
    destruct h; cbn in Hh; discriminate. }
  pose proof (Hinv h1 H1) as E1. pose proof (Hinv h2 H2) as E2.
  split; [congruence | exact E1].
Qed.

Lemma at_most_one_popup_witness :
  1%nat = 1%nat
  /\ openedWindow
       (fold_left openerStep
          [ClickOpen "https://a.example" EmptyString "300" false;
           ClickOpen "https://b.example" "800" EmptyString false]
          opener0) = Some 1%nat.
Proof.
  apply (at_most_one_popup
           [ClickOpen "https://a.example" EmptyString "300" false;
            ClickOpen "https://b.example" "800" EmptyString false] 1 1);
    reflexivity.
Defined.

(** * The position when the window changes *)

Lemma steps_cons (win : Window) (wins : list Window) (s : World) :
  steps (win :: wins) s = steps wins (moveLayer win s).
Proof. reflexivity. Qed.


Lemma top_nonneg_step (win : Window) (s : World) :
  dy s = 0 ->
  Z.of_N (style_height (layer s)) <= innerHeight win ->
  0 <= style_top (layer s) ->
  0 <= style_top (layer (moveLayer win s)).
Proof.
  intros Hdy Hh Hy.
  rewrite moveLayer_top. unfold hitsBottom, hitsTop.
  rewrite shiftedY_eq, Hdy.
  destruct (goingDown s), (hitsWall win s); cbn [andb negb]; cmp_cases; lia.
Qed.

Lemma steps_top_nonneg (wins : list Window) :
  forall s,
    dy s = 0 ->
    0 <= style_top (layer s) ->
    Forall (fun win => Z.of_N (style_height (layer s)) <= innerHeight win) wins ->
    0 <= style_top (layer (steps wins s)).
Proof.
  induction wins as [|win wins IH]; intros s Hdy Hy Hall; [exact Hy|].
  inversion Hall as [|? ? Hwin Hrest]; subst.
  rewrite steps_cons. apply IH.
  - rewrite moveLayer_dy. exact Hdy.
  - apply top_nonneg_step; assumption.
  - destruct (moveLayer_size win s) as [_ ->]. exact Hrest.
Qed.






(** * A layer larger than the window, again *)

Lemma no_two_toggles (win : Window) (s : World) :
  dy s = 0 ->
  2 * Z.of_N (style_height (layer s)) < innerHeight win ->
  goingDown (moveLayer win s) <> goingDown s ->
  goingDown (moveLayer win (moveLayer win s)) = goingDown (moveLayer win s).
Proof.
  intros Hdy Hh Htog.
  pose proof (moveLayer_goingDown win s) as G1.
  pose proof (moveLayer_top win s) as T1.
  pose proof (moveLayer_dy win s) as D1. rewrite Hdy in D1.
  destruct (moveLayer_size win s) as [_ H1].
  set (s1 := moveLayer win s) in *.
  rewrite moveLayer_goingDown. unfold hitsBottom, hitsTop in *.
  rewrite shiftedY_eq, D1, H1.
  rewrite shiftedY_eq, Hdy in G1, T1.
  destruct (goingDown s) eqn:Eg; cbn [andb negb] in G1, T1.
  - destruct (_ >=? _) eqn:Ef in G1, T1.
    + rewrite G1, T1. cbn [andb negb].
      destruct (hitsWall win s1); cmp_cases; try reflexivity; lia.
    + congruence.
  - destruct (_ <=? _) eqn:Ef in G1, T1.
    + rewrite G1, T1. cbn [andb negb].
      destruct (hitsWall win s1); cmp_cases; try reflexivity; lia.
    + congruence.
Qed.

(** C6, as the code has it.  Nothing clamps the position of a layer that is
    larger than the window, but part of the claim holds of every layer,
    too wide or not: after [startAnimation], [x] is never negative,
    whatever the windows of the steps; [y] is never negative as long as
    these windows are at least as high as the layer; and in a window more
    than twice as high as the layer the phase never toggles in two steps in
    a row.  A layer higher than the window does get a negative [y] and a
    toggle in every step: with a layer of 150 by 150 in a window of 100 by
    100 every odd step ends at (3, -50) ascending, every even step at
    (0, 0) descending, and the phase toggles [n] times in the first [n]
    steps. *)
Theorem oversized_layer_oscillates (n : nat) :
  (forall inp prior wins,
      0 <= style_left (layer (steps wins (resetWorld inp prior))))
  /\ (forall inp prior wins,
         Forall (fun win =>
                   Z.of_N (style_height (layer (resetWorld inp prior)))
                   <= innerHeight win) wins ->
         0 <= style_top (layer (steps wins (resetWorld inp prior))))
  /\ (forall win s,
         dy s = 0 ->
         2 * Z.of_N (style_height (layer s)) < innerHeight win ->
         goingDown (moveLayer win s) <> goingDown s ->
         goingDown (moveLayer win (moveLayer win s)) = goingDown (moveLayer win s))
  /\ motionOf (run smallWindow (2 * n + 1) oversizedStart) = oversizedBelow
  /\ motionOf (run smallWindow (2 * n + 2) oversizedStart) = oversizedAtOrigin
  /\ toggles smallWindow n oversizedStart = n.
Proof.
  split.
  { intros inp prior wins.
    apply (onGrid_nonneg (Z.abs (dx prior))); [lia|].
    apply onGrid_steps; [lia | apply onGrid_reset]. }
  split.
  { intros inp prior wins Hall.
    apply steps_top_nonneg; [reflexivity | cbn; lia | exact Hall]. }
  split; [exact no_two_toggles|].
  destruct (oversized_alternates n) as (_ & H1 & H2).
  split; [exact H1|]. split; [exact H2|].
  apply oversized_toggles; [reflexivity | left; reflexivity].
Qed.

Lemma oversized_layer_oscillates_witness :
  0 <= style_top
         (layer (steps [smallWindow; {| innerWidth := 100; innerHeight := 150 |}]
                   (resetWorld (sizeInputs "150" "100") (initWorld (plainLayer 0 0))))).
Proof.
  destruct (oversized_layer_oscillates 0) as (_ & H & _).
  apply H. repeat constructor; vm_compute; discriminate.
Defined.

(** * What [startAnimation] produces *)




